(** * async_crawler: the crawl engine of [crawler.py]

    A shallow embedding of the class [Crawler] (crawler.py) and of the
    report of main.py, and proofs about the frontier, the redirect
    handling, the scope policy, the worker pool and the records of the
    crawl.

    Python values are modelled as follows.
    - [str] is [string]; a character is a code point below 256.
    - [int] is [Z].
    - A [set] of str is a [gset string], a [dict] keyed by str a
      [gmap string _]; a for loop over a set runs through it in the
      order [set_iter], of which only the elements are known.
    - [asyncio.Queue] is the record [Queue]: the FIFO of items and the
      numbers of [put_nowait] and of [task_done] calls so far (asyncio
      keeps their difference, [_unfinished_tasks]).
    - A call that can raise ends in an [outcome], [Returned] or [Raised].
    - The coroutines run on one event loop: what a worker does between
      two suspension points is one [action] of the pool, and a schedule
      is a list of actions.
    - [urllib.parse], [cgi], [bs4] and the aiohttp session are not part
      of the repository.  The functions taken from them are the fields
      of the class [Library], the session is the field [session] of the
      crawler, and the theorems hold for all of them.  [CPython] is one
      instance, on which the model is run; the theorem about the root
      that main.py builds is stated on it. *)

From stdpp Require Import gmap strings list sets pretty sorting.
From Stdlib Require Import ZArith Ascii Lia.

Local Open Scope Z_scope.

Set Warnings "-clear-no-such-hyp".

(** ** Python [str] operations used by the crawler *)

Module PyStr.

(** [c.lower()] for one code point below 256: A-Z and the Latin-1
    capitals U+00C0..U+00DE (without the sign U+00D7) move up by 32. *)
Definition lower_char (c : ascii) : ascii :=
  let n := N_of_ascii c in
  if ((65 <=? n) && (n <=? 90))%N then ascii_of_N (n + 32)
  else if ((192 <=? n) && (n <=? 222) && negb (n =? 215))%N
       then ascii_of_N (n + 32)
  else c.

(** [s.lower()] *)
Fixpoint lower (s : string) : string :=
  match s with
  | EmptyString => EmptyString
  | String c s' => String (lower_char c) (lower s')
  end.

(** [s.startswith(p)] *)
Fixpoint startswith (s p : string) {struct p} : bool :=
  match p, s with
  | EmptyString, _ => true
  | String a p', String b s' => if decide (a = b) then startswith s' p' else false
  | String _ _, EmptyString => false
  end.

(** [s[n:]] for [n >= 0] *)
Fixpoint slice_from (n : nat) (s : string) : string :=
  match n, s with
  | O, _ => s
  | S n', String _ s' => slice_from n' s'
  | S _, EmptyString => EmptyString
  end.

(** The class [[\d\.]] of the regular expression in [host_okay]. *)
Definition digit_or_dot (c : ascii) : bool :=
  let n := N_of_ascii c in
  (((48 <=? n) && (n <=? 57)) || (n =? 46))%N.

(** [re.match(r'\A[\d\.]*\Z', s)] is not None *)
Fixpoint match_digits_dots (s : string) : bool :=
  match s with
  | EmptyString => true
  | String c s' => digit_or_dot c && match_digits_dots s'
  end.

Definition dquote : ascii := "034"%char.
Definition backslash : ascii := "092"%char.

(** [c in s] *)
Fixpoint contains (c : ascii) (s : string) : bool :=
  match s with
  | EmptyString => false
  | String b s' => if decide (b = c) then true else contains c s'
  end.

(** [s.find(c)]; [None] is -1. *)
Fixpoint find (c : ascii) (s : string) : option nat :=
  match s with
  | EmptyString => None
  | String b s' => if decide (b = c) then Some O else S <$> find c s'
  end.

(** [s.find(c, start)] *)
Definition find_from (c : ascii) (start : nat) (s : string) : option nat :=
  (λ i, (start + i)%nat) <$> find c (slice_from start s).

(** [s.rfind(c)] *)
Fixpoint rfind (c : ascii) (s : string) : option nat :=
  match s with
  | EmptyString => None
  | String b s' =>
      match rfind c s' with
      | Some i => Some (S i)
      | None => if decide (b = c) then Some O else None
      end
  end.

(** [s[:n]] for [n >= 0] *)
Fixpoint take (n : nat) (s : string) : string :=
  match n, s with
  | S n', String b s' => String b (take n' s')
  | _, _ => EmptyString
  end.

(** [s.split(c)] *)
Fixpoint split (c : ascii) (s : string) : list string :=
  match s with
  | EmptyString => [EmptyString]
  | String b s' =>
      match split c s' with
      | w :: ws => if decide (b = c) then EmptyString :: w :: ws
                   else String b w :: ws
      | [] => []
      end
  end.

(** [s.split(c, 1)] when [c in s] *)
Definition split1 (c : ascii) (s : string) : string * string :=
  match find c s with
  | Some i => (take i s, slice_from (S i) s)
  | None => (s, EmptyString)
  end.

(** [sep.join(l)] *)
Fixpoint join (sep : string) (l : list string) : string :=
  match l with
  | [] => EmptyString
  | [w] => w
  | w :: l' => w +:+ sep +:+ join sep l'
  end.

(** [c.isspace()] for a code point below 256 *)
Definition isspace (c : ascii) : bool :=
  let n := N_of_ascii c in
  (((9 <=? n) && (n <=? 13)) || ((28 <=? n) && (n <=? 32))
   || (n =? 133) || (n =? 160))%N.

Fixpoint lstrip_with (f : ascii → bool) (s : string) : string :=
  match s with
  | EmptyString => EmptyString
  | String b s' => if f b then lstrip_with f s' else s
  end.

(** [s.strip()] *)
Definition strip (s : string) : string :=
  String.rev (lstrip_with isspace (String.rev (lstrip_with isspace s))).

(** [s.count(c)] *)
Fixpoint count (c : ascii) (s : string) : nat :=
  match s with
  | EmptyString => O
  | String b s' => ((if decide (b = c) then 1 else 0) + count c s')%nat
  end.

(** [s.count(a + b)], occurrences that do not overlap *)
Fixpoint count2 (a b : ascii) (s : string) : nat :=
  match s with
  | EmptyString => O
  | String x t =>
      match t with
      | String y s' =>
          if decide (x = a ∧ y = b) then S (count2 a b s') else count2 a b t
      | EmptyString => O
      end
  end.

(** [s.replace(a + b, r)] *)
Fixpoint replace2 (a b : ascii) (r : string) (s : string) : string :=
  match s with
  | EmptyString => EmptyString
  | String x t =>
      match t with
      | String y s' =>
          if decide (x = a ∧ y = b) then r +:+ replace2 a b r s'
          else String x (replace2 a b r t)
      | EmptyString => s
      end
  end.

(** [s.replace(c, '')] *)
Fixpoint remove (c : ascii) (s : string) : string :=
  match s with
  | EmptyString => EmptyString
  | String b s' => if decide (b = c) then remove c s' else String b (remove c s')
  end.

(** [all(f(c) for c in s)] *)
Fixpoint all (f : ascii → bool) (s : string) : bool :=
  match s with
  | EmptyString => true
  | String b s' => f b && all f s'
  end.

(** [s[-1]], when [s] is not empty *)
Fixpoint last (s : string) : option ascii :=
  match s with
  | EmptyString => None
  | String b EmptyString => Some b
  | String _ s' => last s'
  end.

(** [sub in s] *)
Fixpoint contains_sub (sub s : string) : bool :=
  startswith s sub
  || match s with
     | EmptyString => false
     | String _ s' => contains_sub sub s'
     end.

End PyStr.

(** ** Exceptions *)

Inductive exn : Type :=
  | KeyError (key : string)
  | AssertionError
  | ValueError (msg : string).

(** ** The response object of aiohttp, as the crawler reads it *)

Record Response : Type := mkResponse {
  status : Z;                       (* response.status *)
  headers : gmap string string;     (* response.headers, by lower-case name *)
  resp_url : string;                (* response.url *)
  body : string;                    (* yield from response.read() *)
  text : string                     (* yield from response.text() *)
}.

(** ** Library functions the crawler calls *)

(** The two fields of [urllib.parse.urlparse(url)] that the crawler reads. *)
Record ParseResult : Type := mkParseResult {
  scheme : string;
  netloc : string
}.

Class Library : Type := {
  (* urllib.parse *)
  urlparse : string → ParseResult;
  splitport : string → string * option string;
  urljoin : string → string → string;
  urldefrag : string → string * string;
  (* cgi.parse_header *)
  parse_header : string → string * gmap string string;
  (* bs4: the hrefs of BeautifulSoup(text, 'html.parser',
     parse_only=SoupStrainer(name='a', href=True)) and the three soups
     of update_sitemap *)
  Soup : Type;
  anchor_hrefs : string → list string;
  stylesheet_tags : string → Soup;
  img_tags : string → Soup;
  script_tags : string → Soup;
  (* the order in which a for loop runs through a Python set *)
  set_iter : gset string → list string;
  set_iter_perm : ∀ s, set_iter s ≡ₚ elements s
}.

(** ** Crawler state *)

(** FetchStatistic (crawler.py:24) *)
Record FetchStatistic : Type := mkFetchStatistic {
  fs_url : string;
  fs_next_url : option string;
  fs_status : Z;
  fs_exception : option exn;
  fs_size : Z;
  fs_content_type : option string;
  fs_encoding : option string;
  fs_num_urls : Z;
  fs_num_new_urls : Z
}.

(** asyncio.Queue *)
Record Queue : Type := mkQueue {
  items : list (string * Z);
  puts : nat;
  dones : nat
}.

Definition unfinished_tasks (q : Queue) : nat := (puts q - dones q)%nat.

Definition put_nowait (q : Queue) (item : string * Z) : Queue :=
  {| items := items q ++ [item]; puts := S (puts q); dones := dones q |}.

(** [None]: ValueError, task_done() called too many times. *)
Definition task_done (q : Queue) : option Queue :=
  if decide (unfinished_tasks q = 0%nat) then None
  else Some {| items := items q; puts := puts q; dones := S (dones q) |}.

Section Crawler.

Context `{L : Library}.

(** One value of the dict [self.sitemap] *)
Record SitemapEntry : Type := mkSitemapEntry {
  assets : list Soup;
  links : gset string
}.

Record Crawler : Type := mkCrawler {
  root : string;
  max_redirect : Z;
  max_tasks : Z;
  q : Queue;
  seen_urls : gset string;
  visited : list FetchStatistic;
  session : string → option Response;   (* None: aiohttp.ClientError *)
  root_domain : string;
  sitemap : gmap string SitemapEntry
}.

Definition set_q (q' : Queue) (c : Crawler) : Crawler :=
  mkCrawler (root c) (max_redirect c) (max_tasks c) q' (seen_urls c)
            (visited c) (session c) (root_domain c) (sitemap c).

Definition set_seen_urls (s : gset string) (c : Crawler) : Crawler :=
  mkCrawler (root c) (max_redirect c) (max_tasks c) (q c) s
            (visited c) (session c) (root_domain c) (sitemap c).

Definition set_visited (v : list FetchStatistic) (c : Crawler) : Crawler :=
  mkCrawler (root c) (max_redirect c) (max_tasks c) (q c) (seen_urls c)
            v (session c) (root_domain c) (sitemap c).

Definition set_sitemap (m : gmap string SitemapEntry) (c : Crawler) : Crawler :=
  mkCrawler (root c) (max_redirect c) (max_tasks c) (q c) (seen_urls c)
            (visited c) (session c) (root_domain c) m.

(** [self.max_redirect], for the functions whose parameter has the same name. *)
Definition self_max_redirect (c : Crawler) : Z := max_redirect c.

(** What a call leaves behind: it returned, or it raised. *)
Inductive outcome : Type :=
  | Returned (c : Crawler)
  | Raised (e : exn) (c : Crawler).

(** crawler.py:58 *)
Definition extract_domain (root : string) : string :=
  let parts := urlparse root in
  let '(host, port) := splitport (netloc parts) in
  if PyStr.match_digits_dots host then host
  else PyStr.lower host.

(** crawler.py:71 *)
Definition is_redirect (response : Response) : bool :=
  bool_decide (status response ∈ [300; 301; 302; 303; 307]).

(** crawler.py:74 *)
Definition host_okay (c : Crawler) (host : string) : bool :=
  let host := PyStr.lower host in
  if decide (host = root_domain c) then true
  else if PyStr.match_digits_dots host then false
  else
    let host := if PyStr.startswith host "www."
                then PyStr.slice_from 4 host else "www." +:+ host in
    bool_decide (host = root_domain c).

(** crawler.py:89 *)
Definition record_statistic (c : Crawler) (fetch_statistic : FetchStatistic) : Crawler :=
  set_visited (visited c ++ [fetch_statistic]) c.

(** crawler.py:93 *)
Definition update_sitemap (c : Crawler) (url : string) (response : string)
    (urls : gset string) : Crawler :=
  let css_tags := stylesheet_tags response in
  let image_tags := img_tags response in
  let script_tags := script_tags response in
  set_sitemap
    (<[url := {| assets := [css_tags; image_tags; script_tags]; links := urls |}]>
       (sitemap c)) c.

(** crawler.py:108 *)
Definition normalize_url (url : string) (response : Response) : string :=
  let normalized := urljoin (resp_url response) url in
  let '(defragmented, frag) := urldefrag normalized in
  defragmented.

(** crawler.py:215 *)
Definition url_allowed (c : Crawler) (url : string) : bool :=
  let parts := urlparse url in
  if negb (bool_decide (scheme parts ∈ ["http"; "https"])) then false
  else
    let '(host, port) := splitport (netloc parts) in
    if negb (host_okay c host) then false
    else true.

(** crawler.py:226 *)
Definition add_url (c : Crawler) (url : string) (max_redirect : option Z) : Crawler :=
  let max_redirect :=
    match max_redirect with
    | None => self_max_redirect c
    | Some m => m
    end in
  let c := set_seen_urls ({[url]} ∪ seen_urls c) c in
  set_q (put_nowait (q c) (url, max_redirect)) c.

(** crawler.py:42; [session] stands for the aiohttp.ClientSession. *)
Definition init (root : string) (max_redirect max_tasks : Z)
    (session : string → option Response) : Crawler :=
  let c := {| root := root; max_redirect := max_redirect; max_tasks := max_tasks;
              q := mkQueue [] 0 0; seen_urls := ∅; visited := [];
              session := session; root_domain := extract_domain root;
              sitemap := ∅ |} in
  add_url c root None.

(** The header part of parse_response (crawler.py:122-128): the local
    variables [content_type] and [pdict] after the [if content_type:]. *)
Definition header_content_type (response : Response)
    : option string * gmap string string :=
  match headers response !! "content-type" with
  | None => (None, ∅)
  | Some content_type =>
      if decide (content_type = "") then (Some content_type, ∅)
      else let '(content_type, pdict) := parse_header content_type in
           (Some content_type, pdict)
  end.

(** The loop of parse_response (crawler.py:139-144): the sets
    [normalized_urls] and [links] after it. *)
Definition scan_links (c : Crawler) (response : Response) (urls : gset string)
    : gset string * gset string :=
  foldl (λ '(normalized_urls, links) url,
           let normalized := normalize_url url response in
           let normalized_urls := normalized_urls ∪ {[normalized]} in
           if url_allowed c normalized
           then (normalized_urls, links ∪ {[normalized]})
           else (normalized_urls, links))
        (∅, ∅) (set_iter urls).

(** crawler.py:113 *)
Definition parse_response (c : Crawler) (response : Response) (url : string)
    : Crawler * (FetchStatistic * gset string) :=
  let body := body response in
  let '(c, content_type, encoding, links) :=
    if decide (status response = 200) then
      let '(content_type, pdict) := header_content_type response in
      let encoding := default "utf-8" (pdict !! "charset") in
      if bool_decide (content_type ∈ [Some "text/html"; Some "application/xml"]) then
        let text := text response in
        let urls := list_to_set (anchor_hrefs text) in
        let '(normalized_urls, links) := scan_links c response urls in
        (update_sitemap c (resp_url response) text normalized_urls,
         content_type, Some encoding, links)
      else (c, content_type, Some encoding, ∅)
    else (c, None, None, ∅) in
  let stat := {| fs_url := resp_url response;
                 fs_next_url := None;
                 fs_status := status response;
                 fs_exception := None;
                 fs_size := Z.of_nat (String.length body);
                 fs_content_type := content_type;
                 fs_encoding := encoding;
                 fs_num_urls := Z.of_nat (size links);
                 fs_num_new_urls := Z.of_nat (size (links ∖ seen_urls c)) |} in
  (c, (stat, links)).

(** crawler.py:161 *)
Definition process_redirect (c : Crawler) (response : Response) (url : string)
    (max_redirect : Z) : outcome :=
  match headers response !! "location" with
  | None => Raised (KeyError "location") c
  | Some location =>
      let next_url := urljoin url location in
      if decide (next_url ∈ seen_urls c) then Returned c
      else if decide (max_redirect > 0)
           then Returned (add_url c next_url (Some (max_redirect - 1)))
           else Returned c
  end.

(** crawler.py:188-201, the second try block of fetch: what is done once
    [session.get] has answered with [response]. *)
Definition fetch_response (c : Crawler) (response : Response) (url : string)
    (max_redirect : Z) : outcome :=
  if is_redirect response then process_redirect c response url max_redirect
  else
    let '(c, (stat, links)) := parse_response c response url in
    let c := record_statistic c stat in
    let c := foldl (λ c link, set_q (put_nowait (q c) (link, self_max_redirect c)) c)
                   c (set_iter (links ∖ seen_urls c)) in
    Returned (set_seen_urls (seen_urls c ∪ links) c).

(** crawler.py:176 *)
Definition fetch (c : Crawler) (url : string) (max_redirect : Z) : outcome :=
  match session c url with
  | None => Returned c
  | Some response => fetch_response c response url max_redirect
  end.

(** ** The worker pool (crawler.py:203 work, crawler.py:234 crawl)

    The coroutines run on one event loop, so the code between two
    suspension points is one atomic action.  A worker is suspended in
    [q.get()], inside [fetch] before the response is handled
    ([session.get], [response.read], [response.text]), or in
    [response.release()] with [q.task_done()] still to come. *)

Inductive Worker : Type :=
  | Waiting
  | Fetching (url : string) (max_redirect : Z)
  | Releasing
  | Failed (e : exn)
  | Cancelled.

Record Crawl : Type := mkCrawl {
  crawler : Crawler;
  workers : list Worker;
  joined : bool          (* [yield from self.q.join()] has returned *)
}.

(** The atomic actions of the pool; [i] is the index of a worker. *)
Inductive action : Type :=
  | Get (i : nat)       (* q.get() hands an item over; the assert runs *)
  | Fetch (i : nat)     (* the response arrives and is handled *)
  | Done (i : nat)      (* release() is over; q.task_done() *)
  | Join.               (* q.join() returns; the workers are cancelled *)

(** [w.cancel()] *)
Definition cancel (w : Worker) : Worker :=
  match w with
  | Failed e => Failed e
  | _ => Cancelled
  end.

(** [self.q.task_done()] of worker [i], who then loops back to [q.get()]. *)
Definition mark_done (i : nat) (c : Crawler) (ws : list Worker) : Crawl :=
  match task_done (q c) with
  | Some q' => mkCrawl (set_q q' c) (<[i := Waiting]> ws) false
  | None => mkCrawl c (<[i := Failed (ValueError "task_done() called too many times")]> ws) false
  end.

Definition do_action (a : action) (s : Crawl) : option Crawl :=
  let c := crawler s in
  let ws := workers s in
  if joined s then None
  else match a with
  | Get i =>
      match ws !! i, items (q c) with
      | Some Waiting, (url, max_redirect) :: rest =>
          let c := set_q (mkQueue rest (puts (q c)) (dones (q c))) c in
          if decide (url ∈ seen_urls c)
          then Some (mkCrawl c (<[i := Fetching url max_redirect]> ws) false)
          else Some (mkCrawl c (<[i := Failed AssertionError]> ws) false)
      | _, _ => None
      end
  | Fetch i =>
      match ws !! i with
      | Some (Fetching url max_redirect) =>
          match session c url with
          | None => Some (mark_done i c ws)
          | Some response =>
              match fetch_response c response url max_redirect with
              | Returned c => Some (mkCrawl c (<[i := Releasing]> ws) false)
              | Raised e c => Some (mkCrawl c (<[i := Failed e]> ws) false)
              end
          end
      | _ => None
      end
  | Done i =>
      match ws !! i with
      | Some Releasing => Some (mark_done i c ws)
      | _ => None
      end
  | Join =>
      if decide (unfinished_tasks (q c) = 0%nat)
      then Some (mkCrawl c (cancel <$> ws) true)
      else None
  end.

Definition step (s s' : Crawl) : Prop := ∃ a, do_action a s = Some s'.

(** Run a schedule, one action after the other. *)
Fixpoint run (sched : list action) (s : Crawl) : option Crawl :=
  match sched with
  | [] => Some s
  | a :: sched' =>
      match do_action a s with
      | Some s' => run sched' s'
      | None => None
      end
  end.

(** crawler.py:234, up to the first suspension: the workers are created. *)
Definition crawl (c : Crawler) : Crawl :=
  mkCrawl c (replicate (Z.to_nat (max_tasks c)) Waiting) false.

(** The frontier is drained: as many items marked done as admitted, and
    none queued. *)
Definition drained (c : Crawler) : Prop :=
  puts (q c) = dones (q c) ∧ items (q c) = [].

End Crawler.

(** ** A model of the library

    [urllib.parse] and [cgi.parse_header] after CPython 3.11
    (Lib/urllib/parse.py, Lib/cgi.py), for [str] arguments with an
    ASCII netloc that holds no bracket (urlsplit raises ValueError on
    an unbalanced bracket, and checks other netlocs under NFKC).  The
    bs4 scanner is replaced by one for documents whose only tags are
    anchors written [<a href="...">], and a set is run through in the
    order of [elements]. *)

Module CPython.

Definition uses_relative : list string :=
  [""; "ftp"; "http"; "gopher"; "nntp"; "imap"; "wais"; "file"; "https";
   "shttp"; "mms"; "prospero"; "rtsp"; "rtspu"; "sftp"; "svn"; "svn+ssh";
   "ws"; "wss"].

Definition uses_netloc : list string :=
  [""; "ftp"; "http"; "gopher"; "nntp"; "telnet"; "imap"; "wais"; "file";
   "mms"; "https"; "shttp"; "snews"; "prospero"; "rtsp"; "rtspu"; "rsync";
   "svn"; "svn+ssh"; "sftp"; "nfs"; "git"; "git+ssh"; "ws"; "wss"].

Definition uses_params : list string :=
  [""; "ftp"; "hdl"; "prospero"; "http"; "imap"; "https"; "shttp"; "rtsp";
   "rtspu"; "sip"; "sips"; "mms"; "sftp"; "tel"].

Definition isalpha_ascii (c : ascii) : bool :=
  let n := N_of_ascii c in
  (((65 <=? n) && (n <=? 90)) || ((97 <=? n) && (n <=? 122)))%N.

Definition isdigit_ascii (c : ascii) : bool :=
  let n := N_of_ascii c in ((48 <=? n) && (n <=? 57))%N.

(** [c in scheme_chars] *)
Definition scheme_char (c : ascii) : bool :=
  isalpha_ascii c || isdigit_ascii c
  || bool_decide (c ∈ ["+"; "-"; "."]%char).

(** [c in _WHATWG_C0_CONTROL_OR_SPACE] *)
Definition c0_control_or_space (c : ascii) : bool :=
  (N_of_ascii c <=? 32)%N.

(** The loop over [_UNSAFE_URL_BYTES_TO_REMOVE] *)
Definition remove_unsafe (s : string) : string :=
  PyStr.remove "010"%char (PyStr.remove "013"%char (PyStr.remove "009"%char s)).

Record SplitResult : Type := mkSplitResult {
  s_scheme : string; s_netloc : string; s_path : string;
  s_query : string; s_fragment : string
}.

Record ParseResult6 : Type := mkParseResult6 {
  p_scheme : string; p_netloc : string; p_path : string;
  p_params : string; p_query : string; p_fragment : string
}.

(** [_splitnetloc(url, start)] *)
Definition splitnetloc (url : string) (start : nat) : string * string :=
  let delim :=
    foldl (λ delim c, match PyStr.find_from c start url with
                      | Some wdelim => Nat.min delim wdelim
                      | None => delim
                      end)
          (String.length url) ["/"; "?"; "#"]%char in
  (PyStr.take (delim - start) (PyStr.slice_from start url),
   PyStr.slice_from delim url).

(** [urlsplit(url, scheme)] *)
Definition urlsplit (url scheme : string) : SplitResult :=
  let url := PyStr.lstrip_with c0_control_or_space url in
  let scheme :=
    String.rev (PyStr.lstrip_with c0_control_or_space
      (String.rev (PyStr.lstrip_with c0_control_or_space scheme))) in
  let url := remove_unsafe url in
  let scheme := remove_unsafe scheme in
  let '(scheme, url) :=
    match PyStr.find ":" url, url with
    | Some (S i), String c0 _ =>
        if isalpha_ascii c0 && PyStr.all scheme_char (PyStr.take (S i) url)
        then (PyStr.lower (PyStr.take (S i) url), PyStr.slice_from (S (S i)) url)
        else (scheme, url)
    | _, _ => (scheme, url)
    end in
  let '(netloc, url) :=
    if decide (PyStr.take 2 url = "//") then splitnetloc url 2
    else ("", url) in
  let '(url, fragment) :=
    if PyStr.contains "#" url then PyStr.split1 "#" url else (url, "") in
  let '(url, query) :=
    if PyStr.contains "?" url then PyStr.split1 "?" url else (url, "") in
  mkSplitResult scheme netloc url query fragment.

(** [_splitparams(url)], called when [';' in url] *)
Definition splitparams (url : string) : string * string :=
  let cut i := (PyStr.take i url, PyStr.slice_from (S i) url) in
  if PyStr.contains "/" url then
    match PyStr.find_from ";" (default O (PyStr.rfind "/" url)) url with
    | None => (url, "")
    | Some i => cut i
    end
  else cut (default O (PyStr.find ";" url)).

(** [urlparse(url, scheme)] with all six fields *)
Definition urlparse6 (url scheme : string) : ParseResult6 :=
  let r := urlsplit url scheme in
  let '(url, params) :=
    if bool_decide (s_scheme r ∈ uses_params) && PyStr.contains ";" (s_path r)
    then splitparams (s_path r)
    else (s_path r, "") in
  mkParseResult6 (s_scheme r) (s_netloc r) url params (s_query r) (s_fragment r).

(** [urlunsplit((scheme, netloc, url, query, fragment))] *)
Definition urlunsplit (scheme netloc url query fragment : string) : string :=
  let url :=
    if bool_decide (netloc ≠ "")
       || (bool_decide (scheme ≠ "") && bool_decide (scheme ∈ uses_netloc)
           && bool_decide (PyStr.take 2 url ≠ "//"))
    then
      let url := if bool_decide (url ≠ "") && bool_decide (PyStr.take 1 url ≠ "/")
                 then "/" +:+ url else url in
      "//" +:+ netloc +:+ url
    else url in
  let url := if decide (scheme ≠ "") then scheme +:+ ":" +:+ url else url in
  let url := if decide (query ≠ "") then url +:+ "?" +:+ query else url in
  if decide (fragment ≠ "") then url +:+ "#" +:+ fragment else url.

(** [urlunparse((scheme, netloc, url, params, query, fragment))] *)
Definition urlunparse (scheme netloc url params query fragment : string) : string :=
  let url := if decide (params ≠ "") then url +:+ ";" +:+ params else url in
  urlunsplit scheme netloc url query fragment.

(** [segments[1:-1] = filter(None, segments[1:-1])] *)
Definition filter_middle (segments : list string) : list string :=
  match segments with
  | first :: rest =>
      match reverse rest with
      | lst :: mid_rev =>
          first :: filter (λ seg, seg ≠ "") (reverse mid_rev) ++ [lst]
      | [] => segments
      end
  | [] => []
  end.

(** [urljoin(base, url)] *)
Definition urljoin (base url : string) : string :=
  if decide (base = "") then url
  else if decide (url = "") then base
  else
    let b := urlparse6 base "" in
    let u := urlparse6 url (p_scheme b) in
    let scheme := p_scheme u in
    if bool_decide (scheme ≠ p_scheme b) || negb (bool_decide (scheme ∈ uses_relative))
    then url
    else if bool_decide (scheme ∈ uses_netloc) && bool_decide (p_netloc u ≠ "")
    then urlunparse scheme (p_netloc u) (p_path u) (p_params u) (p_query u) (p_fragment u)
    else
      let netloc := if bool_decide (scheme ∈ uses_netloc) then p_netloc b
                    else p_netloc u in
      if bool_decide (p_path u = "") && bool_decide (p_params u = "") then
        let query := if decide (p_query u = "") then p_query b else p_query u in
        urlunparse scheme netloc (p_path b) (p_params b) query (p_fragment u)
      else
        let base_parts := PyStr.split "/" (p_path b) in
        let base_parts :=
          if decide (List.last base_parts "" ≠ "") then removelast base_parts
          else base_parts in
        let segments :=
          if decide (PyStr.take 1 (p_path u) = "/") then PyStr.split "/" (p_path u)
          else filter_middle (base_parts ++ PyStr.split "/" (p_path u)) in
        let resolved_path :=
          foldl (λ resolved_path seg,
                   if decide (seg = "..") then removelast resolved_path
                   else if decide (seg = ".") then resolved_path
                   else resolved_path ++ [seg])
                [] segments in
        let resolved_path :=
          if bool_decide (List.last segments "" ∈ ["."; ".."])
          then resolved_path ++ [""] else resolved_path in
        let joined := PyStr.join "/" resolved_path in
        urlunparse scheme netloc (if decide (joined = "") then "/" else joined)
                   (p_params u) (p_query u) (p_fragment u).

(** [urldefrag(url)] *)
Definition urldefrag (url : string) : string * string :=
  if PyStr.contains "#" url then
    let r := urlparse6 url "" in
    (urlunparse (p_scheme r) (p_netloc r) (p_path r) (p_params r) (p_query r) "",
     p_fragment r)
  else (url, "").

(** [urlparse(url)], the fields the crawler reads *)
Definition urlparse (url : string) : ParseResult :=
  let r := urlparse6 url "" in
  mkParseResult (p_scheme r) (p_netloc r).

(** [splitport(host)]: [host] is cut at its last colon when only
    ASCII digits follow it. *)
Definition splitport (host : string) : string * option string :=
  match PyStr.rfind ":" host with
  | Some i =>
      let port := PyStr.slice_from (S i) host in
      if PyStr.all isdigit_ascii port then
        if decide (port ≠ "") then (PyStr.take i host, Some port)
        else (PyStr.take i host, None)
      else (host, None)
  | None => (host, None)
  end.

(** The inner while loop of [cgi._parseparam] *)
Fixpoint parseparam_end (fuel : nat) (s : string) (end_ : option nat) : option nat :=
  match fuel, end_ with
  | S fuel', Some e =>
      if (0 <? e)%nat
         && Nat.odd (PyStr.count PyStr.dquote (PyStr.take e s)
                     - PyStr.count2 PyStr.backslash PyStr.dquote (PyStr.take e s))
      then parseparam_end fuel' s (PyStr.find_from ";" (S e) s)
      else end_
  | _, _ => end_
  end.

(** [list(cgi._parseparam(s))] *)
Fixpoint parseparam (fuel : nat) (s : string) : list string :=
  match fuel, s with
  | S fuel', String ";" s =>
      let end_ := parseparam_end (String.length s) s (PyStr.find ";" s) in
      let end_ := default (String.length s) end_ in
      PyStr.strip (PyStr.take end_ s) :: parseparam fuel' (PyStr.slice_from end_ s)
  | _, _ => []
  end.

(** [cgi.parse_header(line)] *)
Definition parse_header (line : string) : string * gmap string string :=
  match parseparam (S (S (String.length line))) (";" +:+ line) with
  | [] => ("", ∅)
  | key :: parts =>
      (key,
       foldl (λ (pdict : gmap string string) p,
                match PyStr.find "=" p with
                | Some i =>
                    let name := PyStr.lower (PyStr.strip (PyStr.take i p)) in
                    let value := PyStr.strip (PyStr.slice_from (S i) p) in
                    let value :=
                      if (2 <=? String.length value)%nat
                         && bool_decide (PyStr.take 1 value = String PyStr.dquote "")
                         && bool_decide (PyStr.last value = Some PyStr.dquote)
                      then
                        let value := PyStr.take (String.length value - 2)
                                                (PyStr.slice_from 1 value) in
                        PyStr.replace2 PyStr.backslash PyStr.dquote (String PyStr.dquote "")
                          (PyStr.replace2 PyStr.backslash PyStr.backslash
                                          (String PyStr.backslash "") value)
                      else value in
                    <[name := value]> pdict
                | None => pdict
                end)
             ∅ parts)
  end.

(** The hrefs of a document whose tags are all [<a href="...">]. *)
Fixpoint anchor_hrefs_go (fuel : nat) (text : string) : list string :=
  match fuel with
  | O => []
  | S fuel' =>
      match text with
      | EmptyString => []
      | String _ rest =>
          if PyStr.startswith text ("<a href=" +:+ String PyStr.dquote "")
          then let after := PyStr.slice_from 9 text in
               PyStr.take (default (String.length after) (PyStr.find PyStr.dquote after)) after
                 :: anchor_hrefs_go fuel' rest
          else anchor_hrefs_go fuel' rest
      end
  end.

Definition anchor_hrefs (text : string) : list string :=
  anchor_hrefs_go (String.length text) text.

(** Pages of anchors have no stylesheet, image or script tag. *)
Definition no_tags (text : string) : list string := [].

#[export] Instance library : Library :=
  Build_Library urlparse splitport urljoin urldefrag parse_header
                (list string) anchor_hrefs no_tags no_tags no_tags
                elements (λ s, reflexivity (elements s)).

End CPython.

(** ** The properties, as the specification words them *)

Section Specification.

Context `{L : Library}.

(** Domain scope policy: [host] consists only of digits and dots. *)
Definition only_digits_and_dots (host : string) : Prop :=
  ∀ ch, ch ∈ String.list_ascii_of_string host →
        ch ∈ String.list_ascii_of_string "0123456789.".

(** Domain scope policy: strip a leading [www.] if present, otherwise
    prepend it. *)
Definition www_equivalent (host : string) : string :=
  match host with
  | String "w" (String "w" (String "w" (String "." rest))) => rest
  | _ => String "w" (String "w" (String "w" (String "." host)))
  end.

(** Domain scope policy: the decision for [host] under [root_domain]. *)
Definition in_scope (root_domain host : string) : Prop :=
  let host := PyStr.lower host in
  host = root_domain
  ∨ (host ≠ root_domain ∧ ¬ only_digits_and_dots host
     ∧ www_equivalent host = root_domain).

(** Every item of the frontier queue has its URL in the seen set. *)
Definition frontier_in_seen (c : Crawler) : Prop :=
  ∀ url max_redirect, (url, max_redirect) ∈ items (q c) → url ∈ seen_urls c.

(** The set [links] that parse_response returns for [response]. *)
Definition page_links (c : Crawler) (response : Response) : gset string :=
  (parse_response c response (resp_url response)).2.2.

(** The FetchStatistic that parse_response returns for [response]. *)
Definition page_stat (c : Crawler) (response : Response) : FetchStatistic :=
  (parse_response c response (resp_url response)).2.1.

(** One pass of worker [i] through the loop of [work]. *)
Definition serve (i : nat) : list action := [Get i; Fetch i; Done i].

(** [n] passes of worker 0, one after the other. *)
Definition sequential (n : nat) : list action := mjoin (replicate n (serve 0)).

(** [session] serves a redirect chain from [url] through [hops]: every
    URL but the last answers with a redirect whose Location resolves to
    the next one, and the last one answers with [final], no redirect. *)
Fixpoint redirect_chain (session : string → option Response) (url : string)
    (hops : list string) (final : Response) : Prop :=
  match hops with
  | [] => session url = Some final ∧ is_redirect final = false
  | next_url :: hops' =>
      (∃ response location,
         session url = Some response ∧ is_redirect response = true
         ∧ headers response !! "location" = Some location
         ∧ urljoin url location = next_url)
      ∧ redirect_chain session next_url hops' final
  end.

(** The crawler after one pass of a worker over the only queued item
    [(url, budget)], when [url] redirects to the unseen [next_url] and
    [budget] is positive: the target is admitted with one redirect
    less, and the item is marked done. *)
Definition followed (c : Crawler) (next_url : string) (budget : Z) : Crawler :=
  mkCrawler (root c) (max_redirect c) (max_tasks c)
    (mkQueue [(next_url, budget - 1)] (S (puts (q c))) (S (dones (q c))))
    ({[next_url]} ∪ seen_urls c) (visited c) (session c) (root_domain c)
    (sitemap c).

(** [(url, budget)] is an item of the chain [urls] under [M] redirects:
    the [k]-th URL with [M - k] redirects left. *)
Definition chain_item (urls : list string) (M : Z) (url : string) (budget : Z)
    : Prop :=
  ∃ k : nat, urls !! k = Some url ∧ budget = M - Z.of_nat k ∧ 0 ≤ budget.

(** What holds of the pool on a chain longer than [M], under every
    schedule: nothing is recorded, only chain items are queued or held,
    and only the first [M + 1] URLs are seen. *)
Definition chain_inv (session0 : string → option Response) (urls : list string)
    (M : Z) (s : Crawl) : Prop :=
  session (crawler s) = session0
  ∧ visited (crawler s) = []
  ∧ (∀ url budget, (url, budget) ∈ items (q (crawler s)) →
                   chain_item urls M url budget)
  ∧ (∀ i url budget, workers s !! i = Some (Fetching url budget) →
                     chain_item urls M url budget)
  ∧ seen_urls (crawler s) ⊆ list_to_set (take (S (Z.to_nat M)) urls).

(** The site of [c]: its root page links to the two in-scope pages [a]
    and [b], which have no links. *)
Definition two_link_site (c : Crawler) (a b : string) : Prop :=
  a ≠ b ∧ a ≠ root c ∧ b ≠ root c
  ∧ (∃ r, session c (root c) = Some r ∧ is_redirect r = false
          ∧ page_links c r = {[a; b]})
  ∧ (∃ r, session c a = Some r ∧ is_redirect r = false ∧ page_links c r = ∅)
  ∧ (∃ r, session c b = Some r ∧ is_redirect r = false ∧ page_links c r = ∅).

(** *** Bookkeeping of the pool *)

Definition is_fetching (w : Worker) : nat :=
  match w with Fetching _ _ => 1 | _ => 0 end.

Definition is_releasing (w : Worker) : nat :=
  match w with Releasing => 1 | _ => 0 end.

Definition is_running (w : Worker) : Prop :=
  match w with Waiting | Fetching _ _ | Releasing => True | _ => False end.

(** The URL a worker holds and has not handled yet. *)
Definition held_url (w : Worker) : list string :=
  match w with Fetching url _ => [url] | _ => [] end.

(** The URLs admitted and not handled yet: queued, or held by a worker. *)
Definition pending (s : Crawl) : list string :=
  (items (q (crawler s))).*1 ++ mjoin (held_url <$> workers s).

Definition fetching_count (s : Crawl) : nat := sum_list_with is_fetching (workers s).
Definition releasing_count (s : Crawl) : nat := sum_list_with is_releasing (workers s).

(** The configuration of the crawl, which no action changes. *)
Definition same_config (c c' : Crawler) : Prop :=
  root c' = root c ∧ max_redirect c' = max_redirect c
  ∧ max_tasks c' = max_tasks c ∧ session c' = session c
  ∧ root_domain c' = root_domain c.

(** The state a call leaves behind, whether it returned or raised. *)
Definition state_of (o : outcome) : Crawler :=
  match o with
  | Returned c => c
  | Raised _ c => c
  end.

(** What holds of every pool: only admitted URLs are pending, and the
    assert of [work] never failed. *)
Definition admitted_inv (s : Crawl) : Prop :=
  (∀ url, url ∈ pending s → url ∈ seen_urls (crawler s))
  ∧ (∀ i, workers s !! i ≠ Some (Failed AssertionError)).

(** The crawl of a [two_link_site]: no worker has failed, the
    unfinished items are the queued and the held ones, there is one
    record per handled URL, and the two links are admitted when the root
    page is handled. *)
Definition site_inv (c0 : Crawler) (a b : string) (s : Crawl) : Prop :=
  same_config c0 (crawler s)
  ∧ length (workers s) = Z.to_nat (max_tasks c0)
  ∧ (joined s = false → Forall is_running (workers s))
  ∧ (joined s = false →
     puts (q (crawler s))
     = (dones (q (crawler s)) + length (items (q (crawler s)))
        + fetching_count s + releasing_count s)%nat)
  ∧ (∀ url, url ∈ pending s → url ∈ seen_urls (crawler s))
  ∧ (length (visited (crawler s)) + length (pending s))%nat
    = size (seen_urls (crawler s))
  ∧ ((seen_urls (crawler s) = {[root c0]} ∧ visited (crawler s) = [])
     ∨ seen_urls (crawler s) = {[root c0; a; b]})
  ∧ (joined s = true → drained (crawler s) ∧ pending s = []).

(** The number of actions the crawl of a [two_link_site] can still take. *)
Definition site_measure (s : Crawl) : nat :=
  if joined s then 0%nat
  else (1 + 3 * length (items (q (crawler s))) + 2 * fetching_count s
        + releasing_count s + 3 * (3 - size (seen_urls (crawler s))))%nat.

End Specification.

(** ** The rest of the engine and of main.py *)

Section Coverage.

Context `{L : Library}.

(** main.py:38-40: the root handed to [Crawler] for [--target]. *)
Definition target_url (target : string) : string :=
  let url := target in
  if negb (PyStr.contains_sub "://" url) then "http://" +:+ url else url.

(** [a < b] on str, the comparison that list.sort uses. *)
Definition str_lt (a b : string) : bool := String.ltb a b.

(** main.py:58-59, [visited_data.sort(key=lambda data: data.url)].
    list.sort is stable and compares the keys with [<] only; the stable
    sort is written here as an insertion from the right. *)
Fixpoint insert_by_url (data : FetchStatistic) (sorted : list FetchStatistic)
    : list FetchStatistic :=
  match sorted with
  | [] => [data]
  | other :: rest =>
      if str_lt (fs_url other) (fs_url data)
      then other :: insert_by_url data rest
      else data :: sorted
  end.

Definition sort_by_url (visited_data : list FetchStatistic) : list FetchStatistic :=
  foldr insert_by_url [] visited_data.

(** [a] may stand before [b] in a list ordered by URL. *)
Definition by_url (a b : FetchStatistic) : Prop :=
  String.le (fs_url a) (fs_url b).

(** The records of each URL stand in the same order in both lists. *)
Definition same_order_per_url (l1 l2 : list FetchStatistic) : Prop :=
  ∀ url, filter (λ data, fs_url data = url) l1
         = filter (λ data, fs_url data = url) l2.

(** main.py:67-72: the numbered lines of the report,
    ['{0}. {1}  {2}\n'.format(count, data.url, data.status)]. *)
Definition report_lines (visited : list FetchStatistic) : list string :=
  imap (λ i data,
          let count := S i in
          pretty count +:+ ". " +:+ fs_url data +:+ "  "
          +:+ pretty (fs_status data) +:+ String "010"%char "")
       (sort_by_url visited).

(** *** Bookkeeping of the pool on any site *)

Definition is_failed (w : Worker) : nat :=
  match w with Failed _ => 1 | _ => 0 end.

Definition failed_count (s : Crawl) : nat := sum_list_with is_failed (workers s).

(** A worker that runs, or that died of the KeyError of process_redirect. *)
Definition alive_or_lost (w : Worker) : Prop :=
  match w with
  | Waiting | Fetching _ _ | Releasing => True
  | Failed e => e = KeyError "location"
  | Cancelled => False
  end.

(** [c'] is [c] after the items [new] were admitted: appended to the
    queue, each URL new to the seen set and added to it once. *)
Definition admission (c c' : Crawler) (new : list (string * Z)) : Prop :=
  items (q c') = items (q c) ++ new
  ∧ puts (q c') = (puts (q c) + length new)%nat
  ∧ dones (q c') = dones (q c)
  ∧ NoDup new.*1
  ∧ (∀ url, url ∈ new.*1 → url ∉ seen_urls c)
  ∧ seen_urls c' = seen_urls c ∪ list_to_set new.*1
  ∧ same_config c c'.

(** A budget found in the frontier of a crawl with [M] redirects: the
    full budget, or what is left of it after some redirects. *)
Definition budget_ok (M budget : Z) : Prop := budget = M ∨ 0 ≤ budget < M.

(** What holds of the pool of [c0] in every state it can reach, on any
    site and under any schedule. *)
Definition crawl_inv (c0 : Crawler) (s : Crawl) : Prop :=
  same_config c0 (crawler s)
  ∧ length (workers s) = Z.to_nat (max_tasks c0)
  ∧ (joined s = false → Forall alive_or_lost (workers s))
  ∧ (joined s = false →
     puts (q (crawler s))
     = (dones (q (crawler s)) + length (items (q (crawler s)))
        + fetching_count s + releasing_count s + failed_count s)%nat)
  ∧ (joined s = true →
     drained (crawler s) ∧ Forall (λ w, w = Cancelled) (workers s))
  ∧ (∀ url, url ∈ pending s → url ∈ seen_urls (crawler s))
  ∧ NoDup (pending s)
  ∧ puts (q (crawler s)) = size (seen_urls (crawler s))
  ∧ (length (visited (crawler s)) + length (pending s)
     ≤ size (seen_urls (crawler s)))%nat
  ∧ (∀ url budget, (url, budget) ∈ items (q (crawler s)) →
                   budget_ok (max_redirect c0) budget)
  ∧ (∀ i url budget, workers s !! i = Some (Fetching url budget) →
                     budget_ok (max_redirect c0) budget).

(** Every URL the crawl of [c] can come to see lies in [U]: the root
    does, and so do the redirect target and the links of every URL of
    [U] that answers. *)
Definition site_within (c : Crawler) (U : gset string) : Prop :=
  root c ∈ U
  ∧ ∀ url response, url ∈ U → session c url = Some response →
      (is_redirect response = true →
       ∀ location, headers response !! "location" = Some location →
                   urljoin url location ∈ U)
      ∧ (is_redirect response = false → page_links c response ⊆ U).


(** The number of actions a crawl that sees at most [n] URLs can still
    take. *)
Definition crawl_measure (n : nat) (s : Crawl) : nat :=
  if joined s then 0%nat
  else (1 + 3 * length (items (q (crawler s))) + 2 * fetching_count s
        + releasing_count s + 3 * (n - size (seen_urls (crawler s))))%nat.

(** [url] answers with a page: a response that is no redirect. *)
Definition answers_page (c : Crawler) (url : string) : Prop :=
  ∃ response, session c url = Some response ∧ is_redirect response = false.

(** [stat] is the record of the page that [url] answers with. *)
Definition record_of (c : Crawler) (stat : FetchStatistic) (url : string) : Prop :=
  ∃ response,
    session c url = Some response ∧ is_redirect response = false
    ∧ fs_url stat = resp_url response ∧ fs_status stat = status response
    ∧ fs_num_urls stat = Z.of_nat (size (page_links c response)).

(** [url] was admitted and is neither queued nor held by a worker: a
    worker is done with it. *)
Definition handled (s : Crawl) (url : string) : Prop :=
  url ∈ seen_urls (crawler s) ∧ url ∉ pending s.

(** The records of the crawl: [visited] holds, in the order of handling,
    one record for each handled URL that answers with a page, and the
    links of every handled page have been admitted. *)
Definition report_inv (c0 : Crawler) (s : Crawl) : Prop :=
  ∃ crawled,
    NoDup crawled
    ∧ Forall2 (record_of c0) (visited (crawler s)) crawled
    ∧ (∀ url, url ∈ crawled ↔ handled s url ∧ answers_page c0 url)
    ∧ (∀ url response,
         handled s url → session c0 url = Some response →
         is_redirect response = false →
         page_links c0 response ⊆ seen_urls (crawler s)).

(** The URLs that the site can lead the crawl of [c] to: the root, the
    links of a page, and the target of a redirect. *)
Inductive reachable (c : Crawler) : string → Prop :=
  | reachable_root : reachable c (root c)
  | reachable_link (url : string) (response : Response) (link : string) :
      reachable c url → session c url = Some response →
      is_redirect response = false → link ∈ page_links c response →
      reachable c link
  | reachable_redirect (url : string) (response : Response) (location : string) :
      reachable c url → session c url = Some response →
      is_redirect response = true →
      headers response !! "location" = Some location →
      reachable c (urljoin url location).

(** The URLs that pages alone lead to: the root and, link by link, the
    links of pages. *)
Inductive linked (c : Crawler) : string → Prop :=
  | linked_root : linked c (root c)
  | linked_page (url : string) (response : Response) (link : string) :
      linked c url → session c url = Some response →
      is_redirect response = false → link ∈ page_links c response →
      linked c link.

End Coverage.

(** ** Sites to run the model on *)

Module Fixture.

#[local] Existing Instance CPython.library.

Definition anchor (href : string) : string :=
  "<a href=" +:+ String PyStr.dquote href +:+ String PyStr.dquote ">link</a>".

Definition html_page (url text : string) : Response :=
  mkResponse 200 {["content-type" := "text/html; charset=utf-8"]} url text text.

Definition plain_page (url text : string) : Response :=
  mkResponse 200 {["content-type" := "text/plain"]} url text text.

Definition redirect (status : Z) (url location : string) : Response :=
  mkResponse status {["location" := location]} url "" "".

Definition redirect_without_location (url : string) : Response :=
  mkResponse 302 ∅ url "" "".

Definition home : string := "http://example.com/".

(** A root page with two in-scope links, one mail link and one link
    to another site; the two linked pages have no anchors. *)
Definition three_pages (url : string) : option Response :=
  if decide (url = home) then
    Some (html_page url (anchor "a.html" +:+ anchor "/b/#top"
                         +:+ anchor "mailto:me@example.com"
                         +:+ anchor "http://other.org/"))
  else if decide (url = "http://example.com/a.html") then
    Some (html_page url "<p>a</p>")
  else if decide (url = "http://example.com/b/") then
    Some (html_page url "<p>b</p>")
  else None.

(** Two redirects, then a page. *)
Definition two_hops (url : string) : option Response :=
  if decide (url = home) then Some (redirect 301 url "/r1")
  else if decide (url = "http://example.com/r1") then
    Some (redirect 302 url "http://example.com/r2")
  else if decide (url = "http://example.com/r2") then
    Some (html_page url "<p>done</p>")
  else None.

(** A redirect whose Location carries a fragment. *)
Definition to_fragment (url : string) : option Response :=
  if decide (url = home) then Some (redirect 301 url "/b#frag")
  else None.

(** A redirect back to the root, and one without a Location. *)
Definition loops (url : string) : option Response :=
  if decide (url = home) then Some (redirect 302 url "/")
  else if decide (url = "http://example.com/lost") then
    Some (redirect_without_location url)
  else if decide (url = "http://example.com/notes.txt") then
    Some (plain_page url "see <a href=/x>")
  else None.

End Fixture.

(** * Theorems *)

Section Properties.

Context `{L : Library}.

(** ** Domain scope policy *)

Lemma digit_or_dot_spec (ch : ascii) :
  PyStr.digit_or_dot ch = true
  ↔ ch ∈ String.list_ascii_of_string "0123456789.".
Proof.
  assert (PyStr.digit_or_dot ch
          = bool_decide (ch ∈ String.list_ascii_of_string "0123456789.")) as ->
    by (destruct ch as [[] [] [] [] [] [] [] []]; vm_compute; reflexivity).
  apply bool_decide_eq_true.
Qed.

Lemma match_digits_dots_spec (host : string) :
  PyStr.match_digits_dots host = true ↔ only_digits_and_dots host.
Proof.
  unfold only_digits_and_dots. induction host as [|ch host IH]; simpl.
  - split; [intros _ ch H; by apply not_elem_of_nil in H | done].
  - rewrite andb_true_iff, IH, digit_or_dot_spec. split.
    + intros [Hch Hhost] ch' [->|H]%elem_of_cons; auto.
    + intros H. split; [apply H; left | intros ch' Hch'; apply H; by right].
Qed.

Lemma www_equivalent_spec (host : string) :
  (if PyStr.startswith host "www." then PyStr.slice_from 4 host
   else "www." +:+ host) = www_equivalent host.
Proof.
  destruct host as [|[[] [] [] [] [] [] [] []] host]; try reflexivity.
  destruct host as [|[[] [] [] [] [] [] [] []] host]; try reflexivity.
  destruct host as [|[[] [] [] [] [] [] [] []] host]; try reflexivity.
  destruct host as [|[[] [] [] [] [] [] [] []] host]; vm_compute; reflexivity.
Qed.


(** C4: [host_okay] decides the domain scope policy: lower-case the
    host; equal to the root domain, in scope; else only digits and
    dots, out of scope; else in scope iff the host with its leading
    [www.] stripped, or prepended when absent, is the root domain.  With
    root domain example.com, example.com and www.example.com are in
    scope, sub.example.com and 192.168.0.1 are not. *)
Theorem host_okay_scope_policy (c : Crawler) :
  (∀ host, host_okay c host = true ↔ in_scope (root_domain c) host)
  ∧ (root_domain c = "example.com" →
     host_okay c "example.com" = true
     ∧ host_okay c "www.example.com" = true
     ∧ host_okay c "sub.example.com" = false
     ∧ host_okay c "192.168.0.1" = false).
Proof.
  split.
  - intros host. unfold host_okay, in_scope.
    rewrite www_equivalent_spec.
    destruct (decide (PyStr.lower host = root_domain c)) as [Heq|Hne].
    { split; [by left | done]. }
    destruct (PyStr.match_digits_dots (PyStr.lower host)) eqn:Hdigits.
    + apply match_digits_dots_spec in Hdigits.
      split; [done | intros [?|(_ & Hnot & _)]; done].
    + assert (¬ only_digits_and_dots (PyStr.lower host)) as Hnot.
      { rewrite <- match_digits_dots_spec. by rewrite Hdigits. }
      rewrite bool_decide_eq_true. split; [by right | intros [?|(_ & _ & ?)]; done].
  - intros Hroot. unfold host_okay. rewrite Hroot. by vm_compute.
Qed.

(** ** The operations on the crawler state *)

Lemma same_config_refl (c : Crawler) : same_config c c.
Proof. by repeat split. Qed.

Lemma same_config_trans (c1 c2 c3 : Crawler) :
  same_config c1 c2 → same_config c2 c3 → same_config c1 c3.
Proof.
  intros (?&?&?&?&?) (?&?&?&?&?). repeat split; congruence.
Qed.

Lemma add_url_eq (c : Crawler) (url : string) (budget : option Z) :
  add_url c url budget
  = mkCrawler (root c) (max_redirect c) (max_tasks c)
      (mkQueue (items (q c) ++ [(url, default (max_redirect c) budget)])
               (S (puts (q c))) (dones (q c)))
      ({[url]} ∪ seen_urls c) (visited c) (session c) (root_domain c)
      (sitemap c).
Proof. by destruct budget. Qed.

Lemma enqueue_all (c : Crawler) (new : list string) :
  foldl (λ c link, set_q (put_nowait (q c) (link, self_max_redirect c)) c) c new
  = set_q (mkQueue (items (q c) ++ ((λ link, (link, max_redirect c)) <$> new))
                   (puts (q c) + length new) (dones (q c))) c.
Proof.
  revert c. induction new as [|link new IH]; intros c; simpl.
  - destruct c as [? ? ? [] ? ? ? ? ?]; simpl.
    by rewrite app_nil_r, Nat.add_0_r.
  - rewrite IH. destruct c as [? ? ? [] ? ? ? ? ?]; simpl.
    unfold set_q, self_max_redirect; simpl.
    by rewrite <- app_assoc, Nat.add_succ_r.
Qed.

Lemma url_allowed_root_domain (c c' : Crawler) (url : string) :
  root_domain c' = root_domain c → url_allowed c' url = url_allowed c url.
Proof.
  intros H. unfold url_allowed, host_okay. by rewrite H.
Qed.

Lemma scan_links_root_domain (c c' : Crawler) (response : Response) urls :
  root_domain c' = root_domain c →
  scan_links c' response urls = scan_links c response urls.
Proof.
  intros H. unfold scan_links. generalize (set_iter urls).
  generalize (∅ : gset string, ∅ : gset string).
  intros acc l. revert acc. induction l as [|u l IH]; intros [nu lk]; simpl; [done|].
  rewrite (url_allowed_root_domain c c') by done. apply IH.
Qed.

Lemma scan_fold_allowed (c : Crawler) (response : Response) (l : list string)
    (acc : gset string * gset string) (url : string) :
  (∀ u, u ∈ acc.2 → url_allowed c u = true) →
  url ∈ (foldl (λ '(normalized_urls, links) url,
                  let normalized := normalize_url url response in
                  let normalized_urls := normalized_urls ∪ {[normalized]} in
                  if url_allowed c normalized
                  then (normalized_urls, links ∪ {[normalized]})
                  else (normalized_urls, links)) acc l).2 →
  url_allowed c url = true.
Proof.
  revert acc. induction l as [|u l IH]; intros [nu lk] Hacc; simpl; [by auto|].
  destruct (url_allowed c (normalize_url u response)) eqn:Hallowed.
  - apply IH. simpl. intros u' [?| ->%elem_of_singleton]%elem_of_union; auto.
  - by apply IH.
Qed.

(** Every link that the loop of parse_response keeps passed [url_allowed]. *)
Lemma scan_links_allowed (c : Crawler) (response : Response) urls url :
  url ∈ (scan_links c response urls).2 → url_allowed c url = true.
Proof. apply scan_fold_allowed. simpl. set_solver. Qed.

Lemma parse_response_url (c : Crawler) (response : Response) (url url' : string) :
  parse_response c response url = parse_response c response url'.
Proof. reflexivity. Qed.

(** parse_response changes nothing but the sitemap. *)
Lemma parse_response_frame (c : Crawler) (response : Response) (url : string) :
  let c' := (parse_response c response url).1 in
  q c' = q c ∧ seen_urls c' = seen_urls c ∧ visited c' = visited c
  ∧ same_config c c'.
Proof.
  unfold parse_response.
  destruct (decide (status response = 200)); simpl;
    [|by repeat split].
  destruct (header_content_type response) as [content_type pdict].
  destruct (bool_decide _); [|by repeat split].
  destruct (scan_links _ _ _) as [normalized_urls lks]. by repeat split.
Qed.

Lemma page_links_root_domain (c c' : Crawler) (response : Response) :
  root_domain c' = root_domain c →
  page_links c' response = page_links c response.
Proof.
  intros H. unfold page_links, parse_response.
  destruct (decide (status response = 200)); simpl; [|done].
  destruct (header_content_type response) as [content_type pdict].
  destruct (bool_decide _); [|done].
  rewrite (scan_links_root_domain c c') by done.
  by destruct (scan_links _ _ _).
Qed.

Lemma page_stat_num_urls (c : Crawler) (response : Response) :
  fs_num_urls (page_stat c response) = Z.of_nat (size (page_links c response)).
Proof.
  unfold page_stat, page_links, parse_response.
  destruct (decide (status response = 200)); simpl; [|done].
  destruct (header_content_type response) as [content_type pdict].
  destruct (bool_decide _); [|done].
  by destruct (scan_links _ _ _).
Qed.

Lemma page_stat_url (c : Crawler) (response : Response) :
  fs_url (page_stat c response) = resp_url response
  ∧ fs_status (page_stat c response) = status response.
Proof.
  unfold page_stat, parse_response.
  destruct (decide (status response = 200)); simpl; [|done].
  destruct (header_content_type response) as [content_type pdict].
  destruct (bool_decide _); [|done].
  by destruct (scan_links _ _ _).
Qed.

Lemma page_stat_num_new_urls (c : Crawler) (response : Response) :
  fs_num_new_urls (page_stat c response)
  = Z.of_nat (size (page_links c response ∖ seen_urls c)).
Proof.
  unfold page_stat, page_links, parse_response.
  destruct (decide (status response = 200)); simpl; [|done].
  destruct (header_content_type response) as [content_type pdict].
  destruct (bool_decide _); [|done].
  by destruct (scan_links _ _ _).
Qed.

(** What fetch does with a response that is no redirect. *)
Lemma fetch_response_completed (c : Crawler) (response : Response)
    (url : string) (budget : Z) :
  is_redirect response = false →
  fetch_response c response url budget
  = Returned
      (mkCrawler (root c) (max_redirect c) (max_tasks c)
         (mkQueue
            (items (q c)
             ++ ((λ link, (link, max_redirect c))
                   <$> set_iter (page_links c response ∖ seen_urls c)))
            (puts (q c) + size (page_links c response ∖ seen_urls c))
            (dones (q c)))
         (seen_urls c ∪ page_links c response)
         (visited c ++ [page_stat c response])
         (session c) (root_domain c)
         (sitemap (parse_response c response url).1)).
Proof.
  intros Hredirect. unfold fetch_response. rewrite Hredirect.
  pose proof (parse_response_frame c response url) as (Hq & Hseen & Hvisited & Hconfig).
  unfold page_links, page_stat.
  rewrite (parse_response_url c response (resp_url response) url).
  destruct (parse_response c response url) as [c' [stat lks]]; simpl in *.
  rewrite enqueue_all. f_equal.
  destruct Hconfig as (? & ? & ? & ? & ?).
  destruct c'; simpl in *; subst. unfold set_seen_urls, set_q; simpl.
  do 2 f_equal.
  by rewrite (set_iter_perm _).
Qed.

Lemma page_links_allowed (c : Crawler) (response : Response) (url : string) :
  url ∈ page_links c response → url_allowed c url = true.
Proof.
  unfold page_links, parse_response.
  destruct (decide (status response = 200)); simpl; [|set_solver].
  destruct (header_content_type response) as [content_type pdict].
  destruct (bool_decide _); [|set_solver].
  destruct (scan_links _ _ _) as [normalized_urls lks] eqn:Hscan. simpl.
  intros Hin. apply (scan_links_allowed c response (list_to_set (anchor_hrefs (text response)))).
  by rewrite Hscan.
Qed.

(** ** Admission *)

(** [add_url] does not look at the seen set: admitted twice, a URL is
    in the seen set once and in the queue twice. *)
Lemma add_url_twice_enqueues_twice (c : Crawler) (url : string)
    (b1 b2 : option Z) :
  let c1 := add_url c url b1 in
  let c2 := add_url c1 url b2 in
  url ∈ seen_urls c1
  ∧ seen_urls c2 = seen_urls c1
  ∧ items (q c2)
    = items (q c) ++ [(url, default (max_redirect c) b1);
                      (url, default (max_redirect c) b2)]
  ∧ puts (q c2) = S (S (puts (q c))).
Proof.
  cbv zeta. rewrite !add_url_eq. simpl. split_and!.
  - set_solver.
  - set_solver.
  - by rewrite <- app_assoc.
  - done.
Qed.

(** ** Redirects *)

Lemma process_redirect_admits (c : Crawler) (response : Response)
    (url location : string) (budget : Z) :
  headers response !! "location" = Some location →
  urljoin url location ∉ seen_urls c →
  budget > 0 →
  process_redirect c response url budget
  = Returned (add_url c (urljoin url location) (Some (budget - 1))).
Proof.
  intros Hloc Hnew Hbudget. unfold process_redirect. rewrite Hloc.
  by rewrite decide_False, decide_True.
Qed.

Lemma process_redirect_exhausted (c : Crawler) (response : Response)
    (url location : string) (budget : Z) :
  headers response !! "location" = Some location →
  budget ≤ 0 →
  process_redirect c response url budget = Returned c.
Proof.
  intros Hloc Hbudget. unfold process_redirect. rewrite Hloc.
  case_decide; [done|]. by rewrite decide_False by lia.
Qed.

(** C6: a redirect whose resolved target is already in the seen set is
    dropped whatever budget remains: [process_redirect], and with it
    [fetch], returns with the crawler unchanged, so the target does not
    enter the frontier again. *)
Theorem seen_redirect_target_dropped (c : Crawler) (response : Response)
    (url location : string) (budget : Z) :
  is_redirect response = true →
  headers response !! "location" = Some location →
  urljoin url location ∈ seen_urls c →
  process_redirect c response url budget = Returned c
  ∧ fetch_response c response url budget = Returned c.
Proof.
  intros Hredirect Hloc Hseen.
  assert (process_redirect c response url budget = Returned c) as Hdrop.
  { unfold process_redirect. rewrite Hloc. by rewrite decide_True. }
  split; [done|]. unfold fetch_response. by rewrite Hredirect.
Qed.

(** C9: for a response with a redirect status and no Location header
    the lookup in [process_redirect] raises KeyError; nothing is
    admitted or recorded and the exception leaves [fetch].  With the
    header present, [fetch] returns. *)
Theorem redirect_without_location_raises (c : Crawler) (url : string)
    (budget : Z) (response : Response) :
  session c url = Some response →
  is_redirect response = true →
  (headers response !! "location" = None →
   process_redirect c response url budget = Raised (KeyError "location") c
   ∧ fetch c url budget = Raised (KeyError "location") c)
  ∧ (is_Some (headers response !! "location") →
     ∃ c', fetch c url budget = Returned c').
Proof.
  intros Hsession Hredirect. unfold fetch, fetch_response.
  rewrite Hsession, Hredirect. unfold process_redirect. split.
  - by intros ->.
  - intros [location ->]. repeat case_decide; eauto.
Qed.

(** ** Responses that are no redirect *)

(** C7: a response that is no redirect and whose status is not 200, or
    whose content type is neither text/html nor application/xml, adds
    exactly one FetchStatistic, with [num_urls] zero, and leaves the
    sitemap, the queue and the seen set as they are. *)
Theorem other_responses_recorded_without_links (c : Crawler)
    (response : Response) (url : string) (budget : Z) :
  is_redirect response = false →
  status response ≠ 200
  ∨ (header_content_type response).1
    ∉ [Some "text/html"; Some "application/xml"] →
  ∃ stat,
    fetch_response c response url budget = Returned (record_statistic c stat)
    ∧ visited (record_statistic c stat) = visited c ++ [stat]
    ∧ sitemap (record_statistic c stat) = sitemap c
    ∧ fs_num_urls stat = 0
    ∧ fs_num_new_urls stat = 0.
Proof.
  intros Hredirect Hother.
  assert (parse_response c response url
          = (c, (page_stat c response, ∅))) as Hparse.
  { unfold page_stat, parse_response.
    destruct (decide (status response = 200)) as [Hok|]; [|done].
    destruct Hother as [?|Hother]; [done|].
    destruct (header_content_type response) as [content_type pdict].
    simpl in Hother. by rewrite bool_decide_eq_false_2. }
  exists (page_stat c response).
  assert (page_links c response = ∅) as Hlinks.
  { unfold page_links. by rewrite (parse_response_url _ _ _ url), Hparse. }
  split_and!; try done.
  - rewrite fetch_response_completed by done.
    rewrite Hparse, Hlinks. simpl.
    replace (∅ ∖ seen_urls c) with (∅ : gset string) by set_solver.
    assert (set_iter ∅ = []) as ->.
    { apply Permutation_nil_r. by rewrite (set_iter_perm ∅), elements_empty. }
    rewrite size_empty, app_nil_r, Nat.add_0_r, union_empty_r_L.
    by destruct c as [? ? ? [] ? ? ? ? ?].
  - by rewrite page_stat_num_urls, Hlinks, size_empty.
  - rewrite page_stat_num_new_urls, Hlinks.
    replace (∅ ∖ seen_urls c) with (∅ : gset string) by set_solver.
    by rewrite size_empty.
Qed.

(** ** The scheme test of [url_allowed] *)

(** C10: a URL whose scheme is neither http nor https is refused by
    [url_allowed] whatever its host, is in the link set of no page, and
    a response that is no redirect neither queues it nor adds it to the
    seen set. *)
Theorem non_http_links_not_admitted (c : Crawler) (url : string) :
  scheme (urlparse url) ∉ ["http"; "https"] →
  url_allowed c url = false
  ∧ (∀ response, url ∉ page_links c response)
  ∧ (∀ response requested budget c',
       is_redirect response = false →
       fetch_response c response requested budget = Returned c' →
       (∀ b, (url, b) ∈ items (q c') → (url, b) ∈ items (q c))
       ∧ (url ∈ seen_urls c' → url ∈ seen_urls c)).
Proof.
  intros Hscheme.
  assert (url_allowed c url = false) as Hrefused.
  { unfold url_allowed. by rewrite bool_decide_eq_false_2. }
  assert (∀ response, url ∉ page_links c response) as Hlinks.
  { intros response Hin%page_links_allowed. congruence. }
  split_and!; [done..|].
  intros response requested budget c' Hredirect Hfetch.
  rewrite fetch_response_completed in Hfetch by done.
  injection Hfetch as <-. simpl. split.
  - intros b [?|Hnew]%elem_of_app; [done|].
    apply list_elem_of_fmap in Hnew as (link & [= <- _] & Hin).
    rewrite (set_iter_perm _) in Hin. apply elem_of_elements in Hin.
    exfalso. apply (Hlinks response). set_solver.
  - intros [?|?]%elem_of_union; [done|]. by destruct (Hlinks response).
Qed.

(** ** The frontier invariant *)

Lemma process_redirect_cases (c : Crawler) (response : Response)
    (url : string) (budget : Z) :
  process_redirect c response url budget = Raised (KeyError "location") c
  ∨ process_redirect c response url budget = Returned c
  ∨ ∃ next_url, (next_url ∉ seen_urls c)
      ∧ process_redirect c response url budget
        = Returned (add_url c next_url (Some (budget - 1))).
Proof.
  unfold process_redirect.
  destruct (headers response !! "location") as [location|]; [|by left].
  repeat case_decide; eauto.
Qed.

(** What a handled response can do to the seen set and to the queue. *)
Lemma fetch_response_effect (c : Crawler) (response : Response)
    (url : string) (budget : Z) :
  let o := fetch_response c response url budget in
  seen_urls c ⊆ seen_urls (state_of o)
  ∧ (∀ item, item ∈ items (q (state_of o)) →
             item ∈ items (q c) ∨ item.1 ∈ seen_urls (state_of o))
  ∧ same_config c (state_of o)
  ∧ (∀ e c', o = Raised e c' → e = KeyError "location").
Proof.
  cbv zeta. destruct (is_redirect response) eqn:Hredirect.
  - unfold fetch_response. rewrite Hredirect.
    destruct (process_redirect_cases c response url budget)
      as [-> | [-> | (next_url & _ & ->)]]; simpl.
    + split_and!; [done | by left | apply same_config_refl | congruence].
    + split_and!; [done | by left | apply same_config_refl | congruence].
    + rewrite add_url_eq. simpl. split_and!.
      * apply union_subseteq_r.
      * intros item [?| ->%list_elem_of_singleton]%elem_of_app; [by left|].
        right. simpl. apply elem_of_union_l. by apply elem_of_singleton.
      * by repeat split.
      * congruence.
  - rewrite fetch_response_completed by done. simpl. split_and!.
    + apply union_subseteq_l.
    + intros item [?|Hnew]%elem_of_app; [by left|]. right.
      apply list_elem_of_fmap in Hnew as (link & -> & Hin). simpl.
      rewrite (set_iter_perm _) in Hin. apply elem_of_elements in Hin.
      apply elem_of_union_r. by apply elem_of_difference in Hin as [? _].
    + by repeat split.
    + congruence.
Qed.

Lemma frontier_in_seen_add_url (c : Crawler) (url : string) (budget : option Z) :
  frontier_in_seen c →
  frontier_in_seen (add_url c url budget)
  ∧ seen_urls c ⊆ seen_urls (add_url c url budget).
Proof.
  intros Hinv. rewrite add_url_eq. unfold frontier_in_seen. simpl. split.
  - intros u b [Hold|Hnew%list_elem_of_singleton]%elem_of_app.
    + apply elem_of_union_r. by eapply Hinv.
    + injection Hnew as -> _. apply elem_of_union_l. by apply elem_of_singleton.
  - apply union_subseteq_r.
Qed.

Lemma frontier_in_seen_init (root : string) (budget tasks : Z) session :
  frontier_in_seen (init root budget tasks session).
Proof.
  unfold init. apply frontier_in_seen_add_url.
  intros u b H. simpl in H. by apply elem_of_nil in H.
Qed.

Lemma frontier_in_seen_fetch_response (c : Crawler) (response : Response)
    (url : string) (budget : Z) :
  frontier_in_seen c →
  frontier_in_seen (state_of (fetch_response c response url budget))
  ∧ seen_urls c ⊆ seen_urls (state_of (fetch_response c response url budget)).
Proof.
  intros Hinv.
  destruct (fetch_response_effect c response url budget) as (Hseen & Hitems & _).
  split; [|done]. intros u b Hin.
  destruct (Hitems _ Hin) as [Hold|Hnew]; [|done].
  apply Hseen. by eapply Hinv.
Qed.

(** *** Workers and what they hold *)

Lemma sum_list_with_insert (f : Worker → nat) (ws : list Worker) (i : nat)
    (w0 w : Worker) :
  ws !! i = Some w0 →
  (sum_list_with f (<[i := w]> ws) + f w0 = sum_list_with f ws + f w)%nat.
Proof.
  revert i. induction ws as [|w' ws IH]; intros [|i] Hi; simplify_eq/=.
  - lia.
  - specialize (IH _ Hi). lia.
Qed.

Lemma held_insert (ws : list Worker) (i : nat) (w : Worker) (url : string) :
  url ∈ mjoin (held_url <$> <[i := w]> ws) →
  url ∈ held_url w ∨ url ∈ mjoin (held_url <$> ws).
Proof.
  revert i. induction ws as [|w' ws IH]; intros [|i]; simpl.
  - by right.
  - by right.
  - intros [?|?]%elem_of_app; [by left|]. right. apply elem_of_app. by right.
  - intros [?|H]%elem_of_app.
    + right. apply elem_of_app. by left.
    + destruct (IH _ H); [by left|]. right. apply elem_of_app. by right.
Qed.

Lemma held_lookup (ws : list Worker) (i : nat) (url : string) (budget : Z) :
  ws !! i = Some (Fetching url budget) → url ∈ mjoin (held_url <$> ws).
Proof.
  revert i. induction ws as [|w' ws IH]; intros [|i] Hi; simplify_eq/=.
  - by left.
  - apply elem_of_app. right. by eapply IH.
Qed.

Lemma held_cancel (ws : list Worker) : mjoin (held_url <$> (cancel <$> ws)) = [].
Proof.
  induction ws as [|w ws IH]; [done|]. by destruct w.
Qed.

Lemma length_held (ws : list Worker) :
  length (mjoin (held_url <$> ws)) = sum_list_with is_fetching ws.
Proof.
  induction ws as [|w ws IH]; [done|].
  change (length (held_url w ++ mjoin (held_url <$> ws))
          = (is_fetching w + sum_list_with is_fetching ws)%nat).
  rewrite length_app, IH. by destruct w.
Qed.

Lemma length_pending (s : Crawl) :
  length (pending s) = (length (items (q (crawler s))) + fetching_count s)%nat.
Proof.
  unfold pending, fetching_count.
  by rewrite length_app, length_fmap, length_held.
Qed.

Lemma mark_done_cases (i : nat) (c : Crawler) (ws : list Worker) :
  (unfinished_tasks (q c) ≠ 0%nat
   ∧ mark_done i c ws
     = mkCrawl (set_q (mkQueue (items (q c)) (puts (q c)) (S (dones (q c)))) c)
               (<[i := Waiting]> ws) false)
  ∨ (unfinished_tasks (q c) = 0%nat
     ∧ ∃ msg, mark_done i c ws = mkCrawl c (<[i := Failed (ValueError msg)]> ws) false).
Proof.
  unfold mark_done, task_done. case_decide; [right|left]; eauto.
Qed.

(** Every action of the pool keeps [admitted_inv]: in particular the
    assert of [work] holds each time an item is taken. *)
Lemma admitted_inv_step (a : action) (s s' : Crawl) :
  admitted_inv s → do_action a s = Some s' → admitted_inv s'.
Proof.
  intros [Hpending Hassert] Hstep. unfold do_action in Hstep.
  destruct (joined s); [done|].
  unfold admitted_inv, pending in *.
  destruct a as [i|i|i|].
  - destruct (workers s !! i) as [[]|] eqn:Hi; try done.
    destruct (items (q (crawler s))) as [|[url budget] rest] eqn:Hitems; [done|].
    simpl in Hstep.
    assert (url ∈ seen_urls (crawler s)) as Hseen.
    { apply Hpending, elem_of_app. left. by left. }
    rewrite decide_True in Hstep by done. injection Hstep as <-. simpl. split.
    + intros u [Hu|Hu]%elem_of_app.
      * apply Hpending, elem_of_app. left. by right.
      * apply held_insert in Hu as [Hu|Hu].
        -- by apply list_elem_of_singleton in Hu as ->.
        -- apply Hpending, elem_of_app. by right.
    + intros j Hj. apply list_lookup_insert_Some in Hj as [(_ & [=] & _) | [_ Hj]].
      by apply (Hassert j).
  - destruct (workers s !! i) as [[| url budget | | |]|] eqn:Hi; try done.
    destruct (session (crawler s) url) as [response|].
    + pose proof (fetch_response_effect (crawler s) response url budget)
        as (Hseen & Hnew & _ & Hexn).
      assert (∃ w, s' = mkCrawl (state_of (fetch_response (crawler s) response url budget))
                                (<[i := w]> (workers s)) false
                   ∧ held_url w = [] ∧ w ≠ Failed AssertionError)
        as (w & -> & Hheld & Hw).
      { destruct (fetch_response _ _ _ _) as [c'|e c'] eqn:Hfetch;
          injection Hstep as <-; eexists; split_and!; try done.
        rewrite (Hexn e c') by done. congruence. }
      simpl. split.
      * intros u [Hu|Hu]%elem_of_app.
        -- apply list_elem_of_fmap in Hu as (item & -> & Hitem).
           destruct (Hnew _ Hitem) as [Hold|?]; [|done].
           apply Hseen, Hpending, elem_of_app. left. by apply list_elem_of_fmap_2.
        -- apply held_insert in Hu as [Hu|Hu].
           ++ rewrite Hheld in Hu. by apply elem_of_nil in Hu.
           ++ apply Hseen, Hpending, elem_of_app. by right.
      * intros j Hj. apply list_lookup_insert_Some in Hj as [(_ & [=] & _) | [_ Hj]].
        -- congruence.
        -- by apply (Hassert j).
    + injection Hstep as <-.
      destruct (mark_done_cases i (crawler s) (workers s))
        as [[_ ->] | [_ [msg ->]]]; simpl; split.
      * intros u [Hu|Hu]%elem_of_app.
        -- apply Hpending, elem_of_app. by left.
        -- apply held_insert in Hu as [Hu|Hu]; [by apply elem_of_nil in Hu|].
           apply Hpending, elem_of_app. by right.
      * intros j Hj. apply list_lookup_insert_Some in Hj as [(_ & [=] & _) | [_ Hj]].
        by apply (Hassert j).
      * intros u [Hu|Hu]%elem_of_app.
        -- apply Hpending, elem_of_app. by left.
        -- apply held_insert in Hu as [Hu|Hu]; [by apply elem_of_nil in Hu|].
           apply Hpending, elem_of_app. by right.
      * intros j Hj. apply list_lookup_insert_Some in Hj as [(_ & [=] & _) | [_ Hj]].
        by apply (Hassert j).
  - destruct (workers s !! i) as [[]|] eqn:Hi; try done.
    injection Hstep as <-.
    destruct (mark_done_cases i (crawler s) (workers s))
      as [[_ ->] | [_ [msg ->]]]; simpl; split.
    * intros u [Hu|Hu]%elem_of_app.
      -- apply Hpending, elem_of_app. by left.
      -- apply held_insert in Hu as [Hu|Hu]; [by apply elem_of_nil in Hu|].
         apply Hpending, elem_of_app. by right.
    * intros j Hj. apply list_lookup_insert_Some in Hj as [(_ & [=] & _) | [_ Hj]].
      by apply (Hassert j).
    * intros u [Hu|Hu]%elem_of_app.
      -- apply Hpending, elem_of_app. by left.
      -- apply held_insert in Hu as [Hu|Hu]; [by apply elem_of_nil in Hu|].
         apply Hpending, elem_of_app. by right.
    * intros j Hj. apply list_lookup_insert_Some in Hj as [(_ & [=] & _) | [_ Hj]].
      by apply (Hassert j).
  - case_decide; [|done]. injection Hstep as <-. simpl. split.
    + intros u [Hu|Hu]%elem_of_app.
      * apply Hpending, elem_of_app. by left.
      * rewrite held_cancel in Hu. by apply elem_of_nil in Hu.
    + intros j Hj. rewrite list_lookup_fmap in Hj.
      destruct (workers s !! j) as [w|] eqn:Hw; [|done].
      injection Hj as Hj. destruct w; simplify_eq/=. by apply (Hassert j).
Qed.

Lemma admitted_inv_run (sched : list action) (s s' : Crawl) :
  admitted_inv s → run sched s = Some s' → admitted_inv s'.
Proof.
  revert s. induction sched as [|a sched IH]; intros s Hinv Hrun; simpl in Hrun.
  - by injection Hrun as <-.
  - destruct (do_action a s) as [s1|] eqn:Hstep; [|done].
    eapply IH; [|done]. by eapply admitted_inv_step.
Qed.

Lemma admitted_inv_crawl (c : Crawler) : frontier_in_seen c → admitted_inv (crawl c).
Proof.
  intros Hinv. split.
  - unfold pending, crawl. simpl. intros u [Hu|Hu]%elem_of_app.
    + apply list_elem_of_fmap in Hu as ([u' b] & -> & Hitem). by eapply Hinv.
    + exfalso. revert Hu. generalize (Z.to_nat (max_tasks c)).
      intros n. induction n as [|n IH]; simpl; [apply not_elem_of_nil | done].
  - unfold crawl. simpl. intros i Hi. by apply lookup_replicate in Hi as [[=] _].
Qed.

Lemma seen_urls_step (a : action) (s s' : Crawl) :
  do_action a s = Some s' → seen_urls (crawler s) ⊆ seen_urls (crawler s').
Proof.
  intros Hstep. unfold do_action in Hstep. destruct (joined s); [done|].
  destruct a as [i|i|i|].
  - destruct (workers s !! i) as [[]|]; try done.
    destruct (items (q (crawler s))) as [|[url budget] rest]; [done|].
    simpl in Hstep. by case_decide; injection Hstep as <-.
  - destruct (workers s !! i) as [[| url budget | | |]|]; try done.
    destruct (session (crawler s) url) as [response|].
    + pose proof (fetch_response_effect (crawler s) response url budget)
        as (Hseen & _).
      by destruct (fetch_response _ _ _ _); injection Hstep as <-.
    + injection Hstep as <-.
      by destruct (mark_done_cases i (crawler s) (workers s))
        as [[_ ->] | [_ [msg ->]]].
  - destruct (workers s !! i) as [[]|]; try done. injection Hstep as <-.
    by destruct (mark_done_cases i (crawler s) (workers s))
      as [[_ ->] | [_ [msg ->]]].
  - case_decide; [|done]. by injection Hstep as <-.
Qed.

(** C8: the constructor leaves every queued URL in the seen set;
    [add_url] and the handling of a response (a redirect or a parsed
    page) keep it so and only add to the seen set; hence in every state
    the pool can reach every queued URL is seen and no worker has failed
    the assert [url in self.seen_urls]; no action removes a seen URL. *)
Theorem frontier_urls_are_seen (root : string) (budget tasks : Z)
    (session : string → option Response) :
  let c0 := init root budget tasks session in
  frontier_in_seen c0
  ∧ (∀ c url b, frontier_in_seen c →
       frontier_in_seen (add_url c url b)
       ∧ seen_urls c ⊆ seen_urls (add_url c url b))
  ∧ (∀ c response url b, frontier_in_seen c →
       frontier_in_seen (state_of (fetch_response c response url b))
       ∧ seen_urls c ⊆ seen_urls (state_of (fetch_response c response url b)))
  ∧ (∀ sched s, run sched (crawl c0) = Some s →
       frontier_in_seen (crawler s)
       ∧ ∀ i, workers s !! i ≠ Some (Failed AssertionError))
  ∧ (∀ a s s', do_action a s = Some s' →
       seen_urls (crawler s) ⊆ seen_urls (crawler s')).
Proof.
  cbv zeta. split_and!.
  - apply frontier_in_seen_init.
  - apply frontier_in_seen_add_url.
  - apply frontier_in_seen_fetch_response.
  - intros sched s Hrun.
    pose proof (admitted_inv_run sched _ s
                  (admitted_inv_crawl _ (frontier_in_seen_init root budget tasks session))
                  Hrun) as [Hpending Hassert].
    split; [|done]. intros u b Hin. apply Hpending.
    apply elem_of_app. left. by apply (list_elem_of_fmap_2 fst _ (u, b)).
  - apply seen_urls_step.
Qed.

Lemma seen_urls_run (sched : list action) (s s' : Crawl) :
  run sched s = Some s' → seen_urls (crawler s) ⊆ seen_urls (crawler s').
Proof.
  revert s. induction sched as [|a sched IH]; intros s Hrun; simpl in Hrun.
  - by injection Hrun as <-.
  - destruct (do_action a s) as [s1|] eqn:Hstep; [|done].
    etrans; [by eapply seen_urls_step | by apply IH].
Qed.

Lemma init_state (root0 : string) (M tasks : Z) session :
  let c := init root0 M tasks session in
  seen_urls c = {[root0]} ∧ items (q c) = [(root0, M)]
  ∧ puts (q c) = 1%nat ∧ dones (q c) = 0%nat ∧ visited c = []
  ∧ root c = root0 ∧ max_tasks c = tasks.
Proof.
  cbv zeta. unfold init. rewrite add_url_eq. cbn.
  by rewrite union_empty_r_L.
Qed.

(** ** Redirect chains *)

Lemma run_app (sched1 sched2 : list action) (s : Crawl) :
  run (sched1 ++ sched2) s = run sched1 s ≫= run sched2.
Proof.
  revert s. induction sched1 as [|a sched1 IH]; intros s; simpl; [done|].
  destruct (do_action a s); [apply IH | done].
Qed.

Lemma sequential_S (n : nat) : sequential (S n) = serve 0 ++ sequential n.
Proof. reflexivity. Qed.

(** One pass of worker 0 over the head of the queue, when the response
    is handled without an exception. *)
Lemma serve_head (c c2 : Crawler) (ws : list Worker) (url : string)
    (budget : Z) (rest : list (string * Z)) (response : Response) :
  items (q c) = (url, budget) :: rest →
  url ∈ seen_urls c →
  session c url = Some response →
  fetch_response (set_q (mkQueue rest (puts (q c)) (dones (q c))) c)
                 response url budget = Returned c2 →
  unfinished_tasks (q c2) ≠ 0%nat →
  run (serve 0) (mkCrawl c (Waiting :: ws) false)
  = Some (mkCrawl (set_q (mkQueue (items (q c2)) (puts (q c2)) (S (dones (q c2)))) c2)
                  (Waiting :: ws) false).
Proof.
  intros Hitems Hseen Hsession Hfetch Hunfinished.
  unfold serve, run, do_action. simpl. rewrite Hitems.
  rewrite decide_True by done. simpl. rewrite Hsession, Hfetch. simpl.
  unfold mark_done, task_done. by rewrite decide_False.
Qed.

(** One pass over a redirect that is followed. *)
Lemma serve_redirect (c : Crawler) (ws : list Worker) (url next_url : string)
    (budget : Z) (response : Response) (location : string) :
  items (q c) = [(url, budget)] →
  puts (q c) = S (dones (q c)) →
  url ∈ seen_urls c →
  session c url = Some response →
  is_redirect response = true →
  headers response !! "location" = Some location →
  urljoin url location = next_url →
  next_url ∉ seen_urls c →
  budget > 0 →
  run (serve 0) (mkCrawl c (Waiting :: ws) false)
  = Some (mkCrawl (followed c next_url budget) (Waiting :: ws) false).
Proof.
  intros Hitems Hputs Hseen Hsession Hredirect Hloc Hjoin Hnew Hbudget.
  set (c1 := set_q (mkQueue [] (puts (q c)) (dones (q c))) c).
  rewrite (serve_head c (add_url c1 next_url (Some (budget - 1))) ws url budget []
             response); try done.
  - unfold fetch_response. rewrite Hredirect.
    by rewrite (process_redirect_admits _ _ _ location), Hjoin by (by rewrite ?Hjoin).
  - rewrite add_url_eq. unfold unfinished_tasks. simpl. lia.
Qed.

(** One pass over a redirect when no redirect is left: it is dropped. *)
Lemma serve_exhausted (c : Crawler) (ws : list Worker) (url : string)
    (response : Response) (location : string) :
  items (q c) = [(url, 0)] →
  puts (q c) = S (dones (q c)) →
  url ∈ seen_urls c →
  session c url = Some response →
  is_redirect response = true →
  headers response !! "location" = Some location →
  run (serve 0) (mkCrawl c (Waiting :: ws) false)
  = Some (mkCrawl (set_q (mkQueue [] (puts (q c)) (S (dones (q c)))) c)
                  (Waiting :: ws) false).
Proof.
  intros Hitems Hputs Hseen Hsession Hredirect Hloc.
  set (c1 := set_q (mkQueue [] (puts (q c)) (dones (q c))) c).
  rewrite (serve_head c c1 ws url 0 [] response); try done.
  - unfold fetch_response. rewrite Hredirect.
    by apply (process_redirect_exhausted _ _ _ location).
  - unfold unfinished_tasks. simpl. lia.
Qed.

(** Along the chain the queue holds one item, the [k]-th URL with
    [k] redirects less than at the start. *)
Lemma chain_follows (final : Response) (ws : list Worker) (k : nat) :
  ∀ (hops : list string) (c : Crawler) (url : string) (budget : Z),
    redirect_chain (session c) url hops final →
    NoDup (url :: hops) →
    (∀ hop, hop ∈ hops → hop ∉ seen_urls c) →
    url ∈ seen_urls c →
    items (q c) = [(url, budget)] →
    puts (q c) = S (dones (q c)) →
    (k ≤ length hops)%nat → Z.of_nat k ≤ budget →
    ∃ c',
      run (sequential k) (mkCrawl c (Waiting :: ws) false)
      = Some (mkCrawl c' (Waiting :: ws) false)
      ∧ items (q c') = [(nth k (url :: hops) "", budget - Z.of_nat k)]
      ∧ puts (q c') = S (dones (q c'))
      ∧ visited c' = visited c.
Proof.
  induction k as [|k IH];
    intros hops c url budget Hchain Hnodup Hfresh Hseen Hitems Hputs Hk Hbudget.
  { exists c. simpl. by rewrite Z.sub_0_r. }
  destruct hops as [|next_url hops]; [simpl in Hk; lia|].
  destruct Hchain as [(response & location & Hsession & Hredirect & Hloc & Hjoin) Hchain].
  apply NoDup_cons in Hnodup as [Hurl Hnodup].
  destruct (IH hops (followed c next_url budget) next_url (budget - 1))
    as (c' & Hrun & Hitems' & Hputs' & Hvisited'); try done.
  - intros hop Hhop. simpl. intros [->%elem_of_singleton|Hold]%elem_of_union.
    + by apply NoDup_cons in Hnodup as [? _].
    + apply (Hfresh hop); [by right | done].
  - simpl. apply elem_of_union_l. by apply elem_of_singleton.
  - simpl. by rewrite Hputs.
  - simpl in Hk. lia.
  - lia.
  - exists c'. split_and!; try done.
    + rewrite sequential_S, run_app.
      rewrite (serve_redirect c ws url next_url budget response location); try done.
      * apply Hfresh. by left.
      * lia.
    + rewrite Hitems'.
      by replace (budget - 1 - Z.of_nat k) with (budget - Z.of_nat (S k)) by lia.
Qed.

(** With redirects to spare the last response is reached and recorded. *)
Lemma chain_completes (final : Response) (ws : list Worker) (hops : list string) :
  ∀ (c : Crawler) (url : string) (budget : Z),
    redirect_chain (session c) url hops final →
    NoDup (url :: hops) →
    (∀ hop, hop ∈ hops → hop ∉ seen_urls c) →
    url ∈ seen_urls c →
    items (q c) = [(url, budget)] →
    puts (q c) = S (dones (q c)) →
    Z.of_nat (length hops) ≤ budget →
    ∃ c' stat,
      run (sequential (S (length hops))) (mkCrawl c (Waiting :: ws) false)
      = Some (mkCrawl c' (Waiting :: ws) false)
      ∧ visited c' = visited c ++ [stat]
      ∧ fs_url stat = resp_url final ∧ fs_status stat = status final
      ∧ (∀ u, u ∈ url :: hops → u ∈ seen_urls c').
Proof.
  induction hops as [|next_url hops IH];
    intros c url budget Hchain Hnodup Hfresh Hseen Hitems Hputs Hbudget.
  - destruct Hchain as [Hsession Hfinal]. simpl.
    eexists _, (page_stat _ final). split_and!.
    + change (sequential 1) with (serve 0). eapply serve_head; try done.
      * by apply fetch_response_completed.
      * unfold unfinished_tasks. simpl. lia.
    + reflexivity.
    + apply page_stat_url.
    + apply page_stat_url.
    + simpl. intros u ->%list_elem_of_singleton. by apply elem_of_union_l.
  - destruct Hchain as [(response & location & Hsession & Hredirect & Hloc & Hjoin) Hchain].
    apply NoDup_cons in Hnodup as [Hurl Hnodup].
    simpl in Hbudget.
    destruct (IH (followed c next_url budget) next_url (budget - 1))
      as (c' & stat & Hrun & Hvisited & Hurl' & Hstatus & Hall); try done.
    + intros hop Hhop. simpl. intros [->%elem_of_singleton|Hold]%elem_of_union.
      * by apply NoDup_cons in Hnodup as [? _].
      * apply (Hfresh hop); [by right | done].
    + simpl. apply elem_of_union_l. by apply elem_of_singleton.
    + simpl. by rewrite Hputs.
    + lia.
    + exists c', stat. split_and!; try done.
      * rewrite sequential_S, run_app.
        rewrite (serve_redirect c ws url next_url budget response location);
          try done.
        -- apply Hfresh. by left.
        -- lia.
      * intros u [->|Hu]%elem_of_cons; [|by apply Hall].
        pose proof (seen_urls_run _ _ _ Hrun) as Hsub. apply Hsub.
        simpl. by apply elem_of_union_r.
Qed.

(** With too few redirects the chain is dropped at the item whose
    budget is zero. *)
Lemma chain_dropped (final : Response) (ws : list Worker) (hops : list string) :
  ∀ (c : Crawler) (url : string) (budget : Z),
    redirect_chain (session c) url hops final →
    NoDup (url :: hops) →
    (∀ hop, hop ∈ hops → hop ∉ seen_urls c) →
    url ∈ seen_urls c →
    items (q c) = [(url, budget)] →
    puts (q c) = S (dones (q c)) →
    0 ≤ budget < Z.of_nat (length hops) →
    ∃ c',
      run (sequential (S (Z.to_nat budget))) (mkCrawl c (Waiting :: ws) false)
      = Some (mkCrawl c' (Waiting :: ws) false)
      ∧ visited c' = visited c
      ∧ items (q c') = []
      ∧ puts (q c') = dones (q c')
      ∧ seen_urls c' = seen_urls c ∪ list_to_set (take (Z.to_nat budget) hops).
Proof.
  induction hops as [|next_url hops IH];
    intros c url budget Hchain Hnodup Hfresh Hseen Hitems Hputs Hbudget.
  { simpl in Hbudget. lia. }
  destruct Hchain as [(response & location & Hsession & Hredirect & Hloc & Hjoin) Hchain].
  apply NoDup_cons in Hnodup as [Hurl Hnodup].
  simpl in Hbudget.
  destruct (decide (budget = 0)) as [->|Hpositive].
  - eexists. split_and!.
    + change (sequential (S (Z.to_nat 0))) with (serve 0).
      by apply (serve_exhausted c ws url response location).
    + done.
    + done.
    + simpl. by rewrite Hputs.
    + simpl. by rewrite union_empty_r_L.
  - destruct (IH (followed c next_url budget) next_url (budget - 1))
      as (c' & Hrun & Hvisited & Hempty & Hdone & Hseen'); try done.
    + intros hop Hhop. simpl. intros [->%elem_of_singleton|Hold]%elem_of_union.
      * by apply NoDup_cons in Hnodup as [? _].
      * apply (Hfresh hop); [by right | done].
    + simpl. apply elem_of_union_l. by apply elem_of_singleton.
    + simpl. by rewrite Hputs.
    + lia.
    + exists c'. split_and!; try done.
      * replace (Z.to_nat budget) with (S (Z.to_nat (budget - 1))) by lia.
        rewrite sequential_S, run_app.
        rewrite (serve_redirect c ws url next_url budget response location);
          try done.
        -- apply Hfresh. by left.
        -- lia.
      * rewrite Hseen'. simpl.
        replace (Z.to_nat budget) with (S (Z.to_nat (budget - 1))) by lia.
        simpl. clear. set_solver.
Qed.

Lemma crawl_init_workers (root : string) (budget tasks : Z) session :
  1 ≤ tasks →
  crawl (init root budget tasks session)
  = mkCrawl (init root budget tasks session)
            (Waiting :: replicate (Z.to_nat tasks - 1) Waiting) false.
Proof.
  intros Htasks. unfold crawl. f_equal.
  replace (max_tasks (init root budget tasks session)) with tasks by done.
  destruct (Z.to_nat tasks) as [|n] eqn:Hn; [lia|]. simpl.
  by rewrite Nat.sub_0_r.
Qed.

(** *** The dropped chain under every schedule *)

Lemma redirect_chain_lookup (session0 : string → option Response)
    (final : Response) (hops : list string) :
  ∀ (url : string) (k : nat) (u : string),
    redirect_chain session0 url hops final →
    (k < length hops)%nat →
    (url :: hops) !! k = Some u →
    ∃ response location next_url,
      session0 u = Some response ∧ is_redirect response = true
      ∧ headers response !! "location" = Some location
      ∧ urljoin u location = next_url
      ∧ (url :: hops) !! S k = Some next_url.
Proof.
  induction hops as [|hop hops IH]; intros url k u Hchain Hk Hu.
  { simpl in Hk. lia. }
  destruct Hchain as [(response & location & Hsession & Hredirect & Hloc & Hjoin) Hchain].
  destruct k as [|k].
  - injection Hu as <-. by exists response, location, hop.
  - apply (IH hop k u Hchain); [simpl in Hk; lia | done].
Qed.

Lemma chain_inv_step (session0 : string → option Response) (final : Response)
    (url0 : string) (hops : list string) (M : Z) (act : action) (s s' : Crawl) :
  redirect_chain session0 url0 hops final →
  M < Z.of_nat (length hops) →
  chain_inv session0 (url0 :: hops) M s →
  do_action act s = Some s' →
  chain_inv session0 (url0 :: hops) M s'.
Proof.
  intros Hchain HM (Hsession & Hvisited & Hitems & Hheld & Hseen) Hstep.
  unfold do_action in Hstep. destruct (joined s); [done|].
  assert (∀ (w : Worker) i,
            (∀ url budget, w ≠ Fetching url budget) →
            ∀ j url budget,
              <[i := w]> (workers s) !! j = Some (Fetching url budget) →
              chain_item (url0 :: hops) M url budget) as Hother.
  { intros w i Hw j url budget [(_ & -> & _) | [_ Hj]]%list_lookup_insert_Some.
    - by destruct (Hw url budget).
    - by eapply Hheld. }
  destruct act as [i|i|i|].
  - destruct (workers s !! i) as [[]|] eqn:Hi; try done.
    destruct (items (q (crawler s))) as [|[url budget] rest] eqn:Hq; [done|].
    simpl in Hstep.
    assert (∀ w, <[i := w]> (workers s) !! i = Some w) as Hat.
    { intros w. apply list_lookup_insert_eq. by eapply lookup_lt_Some. }
    case_decide; injection Hstep as <-; (split_and!; simpl; try done).
    + intros u b' Hin. apply Hitems. by right.
    + intros j u b' [(_ & [= -> ->] & _) | [_ Hj]]%list_lookup_insert_Some.
      * apply Hitems. by left.
      * by eapply Hheld.
    + intros u b' Hin. apply Hitems. by right.
    + by apply Hother.
  - destruct (workers s !! i) as [[| url budget | | |]|] eqn:Hi; try done.
    destruct (Hheld _ _ _ Hi) as (k & Hk & -> & Hleft).
    destruct (redirect_chain_lookup session0 final hops url0 k url Hchain)
      as (response & location & next_url & Hget & Hredirect & Hloc & Hjoin & Hnext);
      [lia | done |].
    rewrite Hsession, Hget in Hstep. unfold fetch_response in Hstep.
    rewrite Hredirect in Hstep. unfold process_redirect in Hstep.
    rewrite Hloc, Hjoin in Hstep.
    destruct (decide (next_url ∈ seen_urls (crawler s))).
    { injection Hstep as <-. split_and!; simpl; try done. by apply Hother. }
    destruct (decide (M - Z.of_nat k > 0)).
    + injection Hstep as <-. rewrite add_url_eq.
      split_and!; cbn [crawler workers visited session q items seen_urls]; try done.
      * intros u b' [Hin | [= -> ->]%list_elem_of_singleton]%elem_of_app.
        -- by apply Hitems.
        -- exists (S k). split_and!; [done | lia | lia].
      * by apply Hother.
      * apply union_subseteq. split; [|done].
        apply singleton_subseteq_l, elem_of_list_to_set, list_elem_of_lookup.
        exists (S k). rewrite lookup_take_lt by lia. done.
    + injection Hstep as <-. split_and!; simpl; try done. by apply Hother.
  - destruct (workers s !! i) as [[]|] eqn:Hi; try done. injection Hstep as <-.
    destruct (mark_done_cases i (crawler s) (workers s))
      as [[_ ->] | [_ [msg ->]]]; (split_and!; simpl; try done); by apply Hother.
  - case_decide; [|done]. injection Hstep as <-. split_and!; simpl; try done.
    intros j url budget Hj. rewrite list_lookup_fmap in Hj.
    by destruct (workers s !! j) as [[]|].
Qed.

Lemma chain_inv_run (session0 : string → option Response) (final : Response)
    (url0 : string) (hops : list string) (M : Z) (sched : list action)
    (s s' : Crawl) :
  redirect_chain session0 url0 hops final →
  M < Z.of_nat (length hops) →
  chain_inv session0 (url0 :: hops) M s →
  run sched s = Some s' →
  chain_inv session0 (url0 :: hops) M s'.
Proof.
  intros Hchain HM. revert s.
  induction sched as [|act sched IH]; intros s Hinv Hrun; simpl in Hrun.
  - by injection Hrun as <-.
  - destruct (do_action act s) as [s1|] eqn:Hstep; [|done].
    eapply IH; [|done]. by eapply chain_inv_step.
Qed.

Lemma chain_inv_crawl (root : string) (hops : list string) (M tasks : Z)
    (session : string → option Response) :
  0 ≤ M →
  chain_inv session (root :: hops) M (crawl (init root M tasks session)).
Proof.
  intros HM.
  destruct (init_state root M tasks session)
    as (Hseen & Hitems & _ & _ & Hvisited & _).
  unfold chain_inv, crawl. cbn [crawler workers]. rewrite Hseen, Hitems, Hvisited.
  split_and!; try done.
  - intros url budget [= -> ->]%list_elem_of_singleton.
    exists 0%nat. split_and!; [done | simpl; lia | done].
  - intros i url budget [[=] _]%lookup_replicate.
  - simpl. apply singleton_subseteq_l, elem_of_union_l. by apply elem_of_singleton.
Qed.

(** C3: a crawl configured with M redirects follows a chain of L
    first-seen redirects, the budget of the queued item falling by one
    at each hop.  When L ≤ M it reaches the last URL and records one
    FetchStatistic for it.  When L > M it drops the chain at the item
    whose budget is zero, after M + 1 passes of the worker: the crawl
    is drained, and under every schedule no FetchStatistic is recorded
    and no hop after the M-th is admitted. *)
Theorem redirect_chain_within_budget (root : string) (hops : list string)
    (final : Response) (M tasks : Z) (session : string → option Response) :
  0 ≤ M → 1 ≤ tasks →
  NoDup (root :: hops) →
  redirect_chain session root hops final →
  let s0 := crawl (init root M tasks session) in
  (∀ k : nat, (k ≤ length hops)%nat → Z.of_nat k ≤ M →
     ∃ s, run (sequential k) s0 = Some s
          ∧ items (q (crawler s)) = [(nth k (root :: hops) "", M - Z.of_nat k)]
          ∧ visited (crawler s) = [])
  ∧ (Z.of_nat (length hops) ≤ M →
     ∃ s stat,
       run (sequential (S (length hops))) s0 = Some s
       ∧ visited (crawler s) = [stat]
       ∧ fs_url stat = resp_url final ∧ fs_status stat = status final
       ∧ (∀ u, u ∈ root :: hops → u ∈ seen_urls (crawler s)))
  ∧ (M < Z.of_nat (length hops) →
     (∃ s,
        run (sequential (S (Z.to_nat M)) ++ [Join]) s0 = Some s
        ∧ joined s = true
        ∧ drained (crawler s)
        ∧ visited (crawler s) = []
        ∧ seen_urls (crawler s) = list_to_set (root :: take (Z.to_nat M) hops))
     ∧ (∀ sched s, run sched s0 = Some s →
          visited (crawler s) = []
          ∧ (∀ u, u ∈ drop (Z.to_nat M) hops → u ∉ seen_urls (crawler s)))).
Proof.
  intros HM Htasks Hnodup Hchain s0.
  assert (chain_inv session (root :: hops) M s0) as Hinv0
    by by apply chain_inv_crawl.
  subst s0. rewrite crawl_init_workers in * by done.
  destruct (init_state root M tasks session)
    as (Hseen0 & Hitems0 & Hputs0 & Hdones0 & Hvisited0 & _).
  assert (∀ hop, hop ∈ hops → hop ∉ seen_urls (init root M tasks session)) as Hfresh.
  { intros hop Hhop. rewrite Hseen0. apply NoDup_cons in Hnodup as [Hroot _].
    by intros ->%elem_of_singleton. }
  assert (root ∈ seen_urls (init root M tasks session)) as Hseen.
  { rewrite Hseen0. by apply elem_of_singleton. }
  assert (puts (q (init root M tasks session))
          = S (dones (q (init root M tasks session)))) as Hputs
    by by rewrite Hputs0, Hdones0.
  split_and!.
  - intros k Hk Hbudget.
    destruct (chain_follows final (replicate (Z.to_nat tasks - 1) Waiting) k hops
                (init root M tasks session) root M)
      as (c' & Hrun & Hitems & _ & Hvisited); try done.
    eexists. split_and!; [exact Hrun | exact Hitems |].
    simpl. by rewrite Hvisited.
  - intros Hlen.
    destruct (chain_completes final (replicate (Z.to_nat tasks - 1) Waiting) hops
                (init root M tasks session) root M)
      as (c' & stat & Hrun & Hvisited & Hurl & Hstatus & Hall); try done.
    exists (mkCrawl c' (Waiting :: replicate (Z.to_nat tasks - 1) Waiting) false), stat.
    split_and!; first [done | simpl; by rewrite Hvisited, Hvisited0].
  - intros Hlen. split.
    + destruct (chain_dropped final (replicate (Z.to_nat tasks - 1) Waiting) hops
                  (init root M tasks session) root M)
        as (c' & Hrun & Hvisited & Hempty & Hdone & Hseen'); try done.
      eexists. split_and!.
      * rewrite run_app, Hrun. simpl. unfold do_action. simpl.
        unfold unfinished_tasks. rewrite Hdone, Nat.sub_diag.
        by rewrite decide_True.
      * done.
      * done.
      * simpl. by rewrite Hvisited.
      * simpl. rewrite Hseen', Hseen0. simpl. clear. set_solver.
    + intros sched s Hrun.
      destruct (chain_inv_run session final root hops M sched _ s Hchain Hlen
                  Hinv0 Hrun) as (_ & Hvisited & _ & _ & Hsub).
      split; [done|]. intros u Hu Hin. apply Hsub in Hin.
      apply elem_of_list_to_set in Hin.
      change (u ∈ take (S (Z.to_nat M)) (root :: hops)) in Hin.
      rewrite <- (take_drop (S (Z.to_nat M)) (root :: hops)) in Hnodup.
      apply NoDup_app in Hnodup as (_ & Hdisjoint & _).
      by apply (Hdisjoint u).
Qed.

(** ** The pool on a site of three pages *)

Lemma sum_list_with_replicate_waiting (f : Worker → nat) (n : nat) :
  f Waiting = 0%nat → sum_list_with f (replicate n Waiting) = 0%nat.
Proof. intros Hf. induction n as [|n IH]; simpl; [done | by rewrite Hf, IH]. Qed.

Lemma held_replicate_waiting (n : nat) :
  mjoin (held_url <$> replicate n Waiting) = [].
Proof. induction n as [|n IH]; [done | exact IH]. Qed.

(** Running workers: one of them is inside [fetch], or one is about to
    call [task_done], or all of them wait for an item. *)
Lemma running_cases (ws : list Worker) :
  Forall is_running ws →
  (∃ i url budget, ws !! i = Some (Fetching url budget))
  ∨ (∃ i, ws !! i = Some Releasing)
  ∨ ws = replicate (length ws) Waiting.
Proof.
  induction 1 as [|w ws Hw _ IH]; [by right; right|].
  destruct w as [| url budget | | |]; try done.
  - destruct IH as [(i & url & budget & Hi) | [(i & Hi) | Hall]].
    + left. by exists (S i), url, budget.
    + right. left. by exists (S i).
    + right. right. simpl. by f_equal.
  - left. by exists 0%nat, url, budget.
  - right. left. by exists 0%nat.
Qed.

Lemma fetch_enabled (s : Crawl) (i : nat) (url : string) (budget : Z) :
  joined s = false → workers s !! i = Some (Fetching url budget) →
  ∃ s', do_action (Fetch i) s = Some s'.
Proof.
  intros Hjoined Hi. unfold do_action. rewrite Hjoined, Hi.
  destruct (session (crawler s) url) as [response|]; [|by eexists].
  destruct (fetch_response _ _ _ _); by eexists.
Qed.

Lemma done_enabled (s : Crawl) (i : nat) :
  joined s = false → workers s !! i = Some Releasing →
  ∃ s', do_action (Done i) s = Some s'.
Proof.
  intros Hjoined Hi. unfold do_action. rewrite Hjoined, Hi. by eexists.
Qed.

Lemma size_three (r a b : string) :
  a ≠ b → a ≠ r → b ≠ r → size ({[r; a; b]} : gset string) = 3%nat.
Proof.
  intros ? ? ?. rewrite !size_union, !size_singleton by set_solver. done.
Qed.

Section Site.

Variables (c0 : Crawler) (a b : string).
Hypothesis Hsite : two_link_site c0 a b.

Lemma site_response (c : Crawler) (url : string) :
  same_config c0 c →
  url ∈ ({[root c0; a; b]} : gset string) →
  ∃ response,
    session c url = Some response ∧ is_redirect response = false
    ∧ page_links c response ⊆ {[a; b]}
    ∧ (url = root c0 → page_links c response = {[a; b]}).
Proof.
  intros (_ & _ & _ & Hsession & Hdomain) Hurl.
  destruct Hsite as (Hab & Ha & Hb & (r0 & H0 & Hr0 & Hl0) & (ra & H1 & Hra & Hla)
                     & (rb & H2 & Hrb & Hlb)).
  rewrite Hsession.
  apply elem_of_union in Hurl as [[->%elem_of_singleton| ->%elem_of_singleton]%elem_of_union
                                 | ->%elem_of_singleton].
  - exists r0. rewrite (page_links_root_domain c0 c) by done.
    split_and!; try done. by rewrite Hl0.
  - exists ra. rewrite (page_links_root_domain c0 c) by done.
    split_and!; try done. rewrite Hla. set_solver.
  - exists rb. rewrite (page_links_root_domain c0 c) by done.
    split_and!; try done. rewrite Hlb. set_solver.
Qed.

Lemma site_seen_three (s : Crawl) :
  site_inv c0 a b s →
  seen_urls (crawler s) ⊆ {[root c0; a; b]}
  ∧ (size (seen_urls (crawler s)) ≤ 3)%nat.
Proof.
  intros (_ & _ & _ & _ & _ & _ & Hseen & _).
  destruct Hsite as (? & ? & ? & _).
  destruct Hseen as [[-> _] | ->].
  - split; [set_solver|]. rewrite size_singleton. lia.
  - split; [done|]. by rewrite size_three.
Qed.

Lemma site_inv_crawl (root0 : string) (M tasks : Z) session :
  c0 = init root0 M tasks session →
  site_inv c0 a b (crawl c0) ∧ site_measure (crawl c0) = 10%nat.
Proof.
  intros Hc0.
  destruct (init_state root0 M tasks session)
    as (Hseen & Hitems & Hputs & Hdones & Hvisited & Hroot & Htasks).
  rewrite <- Hc0 in *.
  unfold site_inv, site_measure. rewrite length_pending.
  unfold fetching_count, releasing_count, crawl.
  cbn [crawler workers joined].
  rewrite !sum_list_with_replicate_waiting by done.
  rewrite Hseen, Hitems, Hputs, Hdones, Hvisited, Hroot, size_singleton.
  split; [split_and!|]; try done.
  - apply length_replicate.
  - intros _. by apply Forall_replicate.
  - unfold pending. cbn [crawler workers]. rewrite Hitems, held_replicate_waiting.
    intros url ->%list_elem_of_singleton. by apply elem_of_singleton.
  - by left.
Qed.

Lemma site_step_get (s s' : Crawl) (i : nat) :
  site_inv c0 a b s → do_action (Get i) s = Some s' →
  site_inv c0 a b s' ∧ (site_measure s' < site_measure s)%nat.
Proof.
  intros Hinv Hstep.
  destruct Hinv as (Hconfig & Hlen & Hrunning & Hcount & Hpending & Hvisited
                    & Hseen & Hjoined).
  unfold do_action in Hstep. destruct (joined s) eqn:Hj; [done|].
  destruct (workers s !! i) as [[]|] eqn:Hi; try done.
  destruct (items (q (crawler s))) as [|[url budget] rest] eqn:Hitems; [done|].
  simpl in Hstep.
  assert (url ∈ seen_urls (crawler s)) as Hin.
  { apply Hpending. unfold pending. rewrite Hitems. apply elem_of_app. left. by left. }
  rewrite decide_True in Hstep by done. injection Hstep as <-.
  pose proof (sum_list_with_insert is_fetching _ _ _ (Fetching url budget) Hi) as HF.
  pose proof (sum_list_with_insert is_releasing _ _ _ (Fetching url budget) Hi) as HR.
  pose proof (length_pending s) as Hlp. rewrite Hitems in Hlp.
  unfold site_inv, site_measure. rewrite length_pending.
  unfold fetching_count, releasing_count in *. simpl in *.
  rewrite Hj. specialize (Hcount eq_refl). split; [split_and!|]; try done.
  - by rewrite length_insert.
  - intros _. apply Forall_insert; [by apply Hrunning | done].
  - intros _. lia.
  - intros u Hu. unfold pending in *. simpl in *.
    apply elem_of_app in Hu as [Hu|Hu].
    + apply Hpending, elem_of_app. left. rewrite Hitems. by right.
    + apply held_insert in Hu as [->%list_elem_of_singleton|Hu]; [done|].
      apply Hpending, elem_of_app. by right.
  - rewrite <- Hvisited, Hlp. lia.
  - rewrite Hitems. simpl. lia.
Qed.

Lemma site_step_done (s s' : Crawl) (i : nat) :
  site_inv c0 a b s → do_action (Done i) s = Some s' →
  site_inv c0 a b s' ∧ (site_measure s' < site_measure s)%nat.
Proof.
  intros Hinv Hstep.
  destruct Hinv as (Hconfig & Hlen & Hrunning & Hcount & Hpending & Hvisited
                    & Hseen & Hjoined).
  unfold do_action in Hstep. destruct (joined s) eqn:Hj; [done|].
  destruct (workers s !! i) as [[]|] eqn:Hi; try done.
  injection Hstep as <-.
  pose proof (sum_list_with_insert is_fetching _ _ _ Waiting Hi) as HF.
  pose proof (sum_list_with_insert is_releasing _ _ _ Waiting Hi) as HR.
  specialize (Hcount eq_refl). unfold fetching_count, releasing_count in *.
  simpl in HF, HR.
  destruct (mark_done_cases i (crawler s) (workers s))
    as [[_ ->] | [Hzero _]]; [|unfold unfinished_tasks in Hzero; lia].
  pose proof (length_pending s) as Hlp.
  unfold site_inv, site_measure. rewrite length_pending.
  unfold fetching_count, releasing_count in *. simpl in *.
  rewrite Hj. split; [split_and!|]; try done.
  - by rewrite length_insert.
  - intros _. apply Forall_insert; [by apply Hrunning | done].
  - intros _. lia.
  - intros u Hu. unfold pending in *. simpl in *.
    apply elem_of_app in Hu as [Hu|Hu].
    + apply Hpending, elem_of_app. by left.
    + apply held_insert in Hu as [Hu|Hu]; [by apply elem_of_nil in Hu|].
      apply Hpending, elem_of_app. by right.
  - lia.
  - lia.
Qed.

Lemma site_admitted (s : Crawl) :
  site_inv c0 a b s → joined s = false → admitted_inv s.
Proof.
  intros (_ & _ & Hrunning & _ & Hpending & _) Hj. split; [done|].
  intros i Hi. specialize (Hrunning Hj).
  by apply (Forall_lookup_1 _ _ _ _ Hrunning) in Hi.
Qed.

Lemma site_step_fetch (s s' : Crawl) (i : nat) :
  site_inv c0 a b s → do_action (Fetch i) s = Some s' →
  site_inv c0 a b s' ∧ (site_measure s' < site_measure s)%nat.
Proof.
  intros Hinv Hstep.
  destruct (site_seen_three s Hinv) as [Hsub Hsize].
  assert (joined s = false) as Hj.
  { unfold do_action in Hstep. by destruct (joined s). }
  destruct (admitted_inv_step _ _ _ (site_admitted s Hinv Hj) Hstep) as [Hpending' _].
  destruct Hinv as (Hconfig & Hlen & Hrunning & Hcount & Hpending & Hvisited
                    & Hseen & Hjoined).
  unfold do_action in Hstep. rewrite Hj in Hstep.
  destruct (workers s !! i) as [[| url budget | | |]|] eqn:Hi; try done.
  assert (url ∈ seen_urls (crawler s)) as Hin.
  { apply Hpending. unfold pending. apply elem_of_app. right. by eapply held_lookup. }
  destruct (site_response (crawler s) url Hconfig (Hsub _ Hin))
    as (response & Hsession & Hredirect & Hlinks & Hroot).
  rewrite Hsession, (fetch_response_completed _ _ _ _ Hredirect) in Hstep.
  injection Hstep as <-.
  pose proof (size_union_alt (seen_urls (crawler s)) (page_links (crawler s) response))
    as Hsz.
  assert (seen_urls (crawler s) ∪ page_links (crawler s) response
          = {[root c0; a; b]}) as Hseen'.
  { destruct Hseen as [[Hs _] | Hs].
    - rewrite Hs in Hin. apply elem_of_singleton in Hin.
      rewrite (Hroot Hin), Hs. clear. set_solver.
    - rewrite Hs. clear -Hlinks. set_solver. }
  assert (size ({[root c0; a; b]} : gset string) = 3%nat) as Hthree.
  { destruct Hsite as (? & ? & ? & _). by apply size_three. }
  rewrite Hseen', Hthree in Hsz.
  pose proof (sum_list_with_insert is_fetching _ _ _ Releasing Hi) as HF.
  pose proof (sum_list_with_insert is_releasing _ _ _ Releasing Hi) as HR.
  pose proof (length_pending s) as Hlp.
  specialize (Hcount Hj).
  unfold site_inv, site_measure in *. rewrite length_pending in *.
  unfold fetching_count, releasing_count in *.
  cbn [crawler workers joined q items puts dones seen_urls visited] in *.
  rewrite Hj. rewrite !length_app, length_fmap. simpl in HF, HR.
  assert (length (set_iter (page_links (crawler s) response ∖ seen_urls (crawler s)))
          = size (page_links (crawler s) response ∖ seen_urls (crawler s))) as ->
    by by rewrite (set_iter_perm _).
  rewrite Hseen', Hthree. simpl.
  split; [split_and!|].
  - destruct Hconfig as (? & ? & ? & ? & ?). by repeat split.
  - by rewrite length_insert.
  - intros _. apply Forall_insert; [by apply Hrunning | done].
  - intros _. lia.
  - intros u Hu. rewrite <- Hseen'. apply Hpending'. exact Hu.
  - lia.
  - by right.
  - done.
  - lia.
Qed.

Lemma site_step_join (s s' : Crawl) :
  site_inv c0 a b s → do_action Join s = Some s' →
  site_inv c0 a b s' ∧ (site_measure s' < site_measure s)%nat.
Proof.
  intros Hinv Hstep.
  destruct Hinv as (Hconfig & Hlen & Hrunning & Hcount & Hpending & Hvisited
                    & Hseen & Hjoined).
  unfold do_action in Hstep. destruct (joined s) eqn:Hj; [done|].
  case_decide as Hzero; [|done]. injection Hstep as <-.
  specialize (Hcount eq_refl). unfold unfinished_tasks in Hzero.
  assert (items (q (crawler s)) = []) as Hitems by (apply nil_length_inv; lia).
  pose proof (length_pending s) as Hlp.
  assert (pending (mkCrawl (crawler s) (cancel <$> workers s) true) = []) as Hnone.
  { unfold pending. cbn [crawler workers]. by rewrite Hitems, held_cancel. }
  unfold site_inv, site_measure. rewrite Hnone, Hj.
  cbn [crawler workers joined].
  split; [split_and!|]; try done.
  - by rewrite length_fmap.
  - intros url Hurl. by apply elem_of_nil in Hurl.
  - rewrite <- Hvisited, Hlp. simpl. lia.
  - intros _. split; [|done]. split; [lia | done].
  - lia.
Qed.

Lemma site_inv_step (act : action) (s s' : Crawl) :
  site_inv c0 a b s → do_action act s = Some s' →
  site_inv c0 a b s' ∧ (site_measure s' < site_measure s)%nat.
Proof.
  destruct act; eauto using site_step_get, site_step_fetch, site_step_done,
    site_step_join.
Qed.

Lemma site_inv_run (sched : list action) (s s' : Crawl) :
  site_inv c0 a b s → run sched s = Some s' →
  site_inv c0 a b s' ∧ (site_measure s' + length sched ≤ site_measure s)%nat.
Proof.
  revert s. induction sched as [|act sched IH]; intros s Hinv Hrun; simpl in Hrun.
  - injection Hrun as <-. simpl. split; [done | lia].
  - destruct (do_action act s) as [s1|] eqn:Hstep; [|done].
    destruct (site_inv_step _ _ _ Hinv Hstep) as [Hinv1 Hless].
    destruct (IH _ Hinv1 Hrun) as [Hinv' Hle]. split; [done|]. simpl. lia.
Qed.

(** While the crawl has not joined, some action is enabled: the pool
    does not deadlock. *)
Lemma site_progress (s : Crawl) :
  1 ≤ max_tasks c0 →
  site_inv c0 a b s → joined s = false →
  ∃ act s', do_action act s = Some s'.
Proof.
  intros Htasks (Hconfig & Hlen & Hrunning & Hcount & _) Hj.
  destruct (running_cases _ (Hrunning Hj))
    as [(i & url & budget & Hi) | [(i & Hi) | Hall]].
  - exists (Fetch i). by eapply fetch_enabled.
  - exists (Done i). by eapply done_enabled.
  - assert (workers s !! 0%nat = Some Waiting) as Hfirst.
    { rewrite Hall. apply lookup_replicate_2. lia. }
    destruct (items (q (crawler s))) as [|[url budget] rest] eqn:Hitems.
    + exists Join. unfold do_action. rewrite Hj.
      specialize (Hcount Hj). unfold fetching_count, releasing_count in Hcount.
      rewrite Hall, !sum_list_with_replicate_waiting in Hcount by done.
      simpl in Hcount.
      rewrite decide_True; [by eexists|]. unfold unfinished_tasks. lia.
    + exists (Get 0). unfold do_action. rewrite Hj, Hfirst, Hitems. simpl.
      case_decide; by eexists.
Qed.

Lemma site_finishes (n : nat) (s : Crawl) :
  1 ≤ max_tasks c0 →
  site_inv c0 a b s → (site_measure s ≤ n)%nat →
  ∃ sched s', run sched s = Some s' ∧ joined s' = true.
Proof.
  intros Htasks. revert s. induction n as [|n IH]; intros s Hinv Hn.
  - exists [], s. split; [done|]. unfold site_measure in Hn.
    destruct (joined s); [done | lia].
  - destruct (joined s) eqn:Hj; [by exists [], s|].
    destruct (site_progress s Htasks Hinv Hj) as (act & s1 & Hstep).
    destruct (site_inv_step _ _ _ Hinv Hstep) as [Hinv1 Hless].
    destruct (IH s1 Hinv1) as (sched & s' & Hrun & Hjoined); [lia|].
    exists (act :: sched), s'. simpl. by rewrite Hstep.
Qed.

Lemma site_joined (s : Crawl) :
  site_inv c0 a b s → joined s = true →
  drained (crawler s) ∧ length (visited (crawler s)) = 3%nat.
Proof.
  intros (_ & _ & _ & _ & _ & Hvisited & Hseen & Hjoined) Hj.
  destruct (Hjoined Hj) as [Hdrained Hnone]. split; [done|].
  rewrite Hnone in Hvisited. simpl in Hvisited.
  destruct Hseen as [[Hs Hv] | Hs].
  - rewrite Hs, Hv, size_singleton in Hvisited. simpl in Hvisited. lia.
  - destruct Hsite as (? & ? & ? & _).
    rewrite Hs, size_three in Hvisited by done. lia.
Qed.

End Site.

(** C2: on a site whose root page links to two in-scope pages without
    links, with 1 or 10 workers, every schedule of the pool stops after
    at most 10 actions; as long as [q.join()] has not returned some
    action is enabled, so the pool does not deadlock; when it has
    returned the frontier is drained and exactly 3 FetchStatistic
    records exist; and some schedule does get there. *)
Theorem three_page_crawl_terminates (root a b : string) (M tasks : Z)
    (session : string → option Response) :
  tasks = 1 ∨ tasks = 10 →
  two_link_site (init root M tasks session) a b →
  let s0 := crawl (init root M tasks session) in
  (∀ sched s, run sched s0 = Some s → (length sched ≤ 10)%nat)
  ∧ (∀ sched s, run sched s0 = Some s → joined s = false →
       ∃ act s', do_action act s = Some s')
  ∧ (∀ sched s, run sched s0 = Some s → joined s = true →
       drained (crawler s) ∧ length (visited (crawler s)) = 3%nat)
  ∧ (∃ sched s, run sched s0 = Some s ∧ joined s = true).
Proof.
  intros Htasks Hsite s0. subst s0.
  destruct (site_inv_crawl _ a b root M tasks session eq_refl) as [Hinv Hmeasure].
  assert (1 ≤ max_tasks (init root M tasks session)) as Hpositive.
  { destruct (init_state root M tasks session) as (_ & _ & _ & _ & _ & _ & ->). lia. }
  split_and!.
  - intros sched s Hrun.
    destruct (site_inv_run _ a b Hsite sched _ s Hinv Hrun) as [_ Hle]. lia.
  - intros sched s Hrun Hj.
    destruct (site_inv_run _ a b Hsite sched _ s Hinv Hrun) as [Hinv' _].
    by eapply site_progress.
  - intros sched s Hrun Hj.
    destruct (site_inv_run _ a b Hsite sched _ s Hinv Hrun) as [Hinv' _].
    by eapply site_joined.
  - eapply (site_finishes _ a b Hsite 10); [done | done | lia].
Qed.

(** ** Link extraction and the sitemap *)

Lemma set_iter_elem (X : gset string) (x : string) : x ∈ set_iter X ↔ x ∈ X.
Proof. by rewrite (set_iter_perm X), elem_of_elements. Qed.

Lemma set_iter_NoDup (X : gset string) : NoDup (set_iter X).
Proof. rewrite (set_iter_perm X). apply NoDup_elements. Qed.

(** The two sets that the loop of parse_response builds do not depend
    on the order in which the hrefs are visited. *)
Lemma scan_fold_spec (c : Crawler) (response : Response) (l : list string)
    (acc : gset string * gset string) (x : string) :
  let result :=
    foldl (λ '(normalized_urls, links) url,
             let normalized := normalize_url url response in
             let normalized_urls := normalized_urls ∪ {[normalized]} in
             if url_allowed c normalized
             then (normalized_urls, links ∪ {[normalized]})
             else (normalized_urls, links)) acc l in
  (x ∈ result.1 ↔ x ∈ acc.1 ∨ ∃ href, href ∈ l ∧ x = normalize_url href response)
  ∧ (x ∈ result.2 ↔
     x ∈ acc.2 ∨ ∃ href, href ∈ l ∧ x = normalize_url href response
                         ∧ url_allowed c x = true).
Proof.
  cbv zeta. revert acc. induction l as [|u l IH]; intros [nu lk]; simpl.
  - split; (split; [by left | intros [?|(? & []%elem_of_nil & _)]; done]).
  - destruct (url_allowed c (normalize_url u response)) eqn:Hallowed;
      destruct (IH (nu ∪ {[normalize_url u response]},
                    if url_allowed c (normalize_url u response)
                    then lk ∪ {[normalize_url u response]} else lk)) as [IH1 IH2];
      rewrite Hallowed in IH1, IH2; rewrite IH1, IH2; simpl; clear IH IH1 IH2;
      (split; split;
       [ intros [[?| ->%elem_of_singleton]%elem_of_union | (h & Hh & Hx)];
         [by left | right; exists u; split; [by left | done]
         | right; exists h; split; [by right | done]]
       | intros [?|(h & [->|Hh]%elem_of_cons & Hx)];
         [left; by apply elem_of_union_l
         | left; apply elem_of_union_r; apply elem_of_singleton; tauto
         | right; by exists h]
       | ..]).
    + intros [[?| ->%elem_of_singleton]%elem_of_union | (h & Hh & Hx)].
      * by left.
      * right. exists u. split_and!; [by left | done | done].
      * right. exists h. split; [by right | done].
    + intros [?|(h & [->|Hh]%elem_of_cons & Hx & Hok)].
      * left. by apply elem_of_union_l.
      * left. apply elem_of_union_r. by apply elem_of_singleton.
      * right. by exists h.
    + intros [?|(h & Hh & Hx)]; [by left|]. right. exists h. split; [by right|done].
    + intros [?|(h & [->|Hh]%elem_of_cons & Hx & Hok)].
      * by left.
      * congruence.
      * right. by exists h.
Qed.

Lemma scan_links_spec (c : Crawler) (response : Response) (x : string) :
  let result := scan_links c response (list_to_set (anchor_hrefs (text response))) in
  (x ∈ result.1 ↔
   ∃ href, href ∈ anchor_hrefs (text response) ∧ x = normalize_url href response)
  ∧ (x ∈ result.2 ↔
     ∃ href, href ∈ anchor_hrefs (text response) ∧ x = normalize_url href response
             ∧ url_allowed c x = true).
Proof.
  cbv zeta. unfold scan_links.
  destruct (scan_fold_spec c response
              (set_iter (list_to_set (anchor_hrefs (text response)))) (∅, ∅) x)
    as [H1 H2].
  rewrite H1, H2. simpl.
  split; (split;
    [ intros [[]%elem_of_empty | (h & Hh%set_iter_elem%elem_of_list_to_set & Hx)];
      by exists h
    | intros (h & Hh & Hx); right; exists h;
      by rewrite set_iter_elem, elem_of_list_to_set ]).
Qed.

(** Every link of a page is the normal form of one of its hrefs. *)
Lemma page_links_hrefs (c : Crawler) (response : Response) (x : string) :
  x ∈ page_links c response →
  ∃ href, href ∈ anchor_hrefs (text response) ∧ x = normalize_url href response.
Proof.
  unfold page_links, parse_response.
  destruct (decide (status response = 200)); simpl; [|by intros []%elem_of_empty].
  destruct (header_content_type response) as [content_type pdict]. simpl.
  destruct (bool_decide _); [|by intros []%elem_of_empty].
  pose proof (scan_links_spec c response x) as [_ H2]. cbv zeta in H2.
  destruct (scan_links _ _ _) as [normalized_urls lks]. simpl in *.
  rewrite H2. intros (h & Hh & Hx & _). by exists h.
Qed.

(** X1: the links that parse_response returns (crawler.py:114) are
    exactly the normal forms of the hrefs of the page that pass
    [url_allowed], and there are some only for a 200 response whose parsed
    Content-Type is text/html or application/xml.  The order in which the
    set of hrefs is iterated plays no role. *)
Theorem page_links_spec (c : Crawler) (response : Response) (url : string) :
  url ∈ page_links c response
  ↔ status response = 200
    ∧ (header_content_type response).1
      ∈ [Some "text/html"; Some "application/xml"]
    ∧ ∃ href, href ∈ anchor_hrefs (text response)
              ∧ url = normalize_url href response
              ∧ url_allowed c url = true.
Proof.
  unfold page_links, parse_response.
  destruct (decide (status response = 200)) as [Hok|Hother]; simpl.
  2:{ split; [by intros []%elem_of_empty | by intros [? _]]. }
  destruct (header_content_type response) as [content_type pdict]. simpl.
  destruct (bool_decide _) eqn:Htype.
  - apply bool_decide_eq_true in Htype.
    pose proof (scan_links_spec c response url) as [_ H2]. cbv zeta in H2.
    destruct (scan_links _ _ _) as [normalized_urls lks]. simpl in *.
    rewrite H2. naive_solver.
  - apply bool_decide_eq_false in Htype. simpl.
    split; [by intros []%elem_of_empty | by intros (_ & ? & _)].
Qed.

(** X2: for a 200 response whose parsed Content-Type is text/html or
    application/xml, fetch leaves in the sitemap, under the URL of the
    response, the three asset lists of the page and as links the normal
    form of every href, allowed or not; the links that fetch admits are
    among them, and the entries of the other URLs are unchanged. *)
Theorem parsed_page_enters_sitemap (c : Crawler) (response : Response)
    (url : string) (budget : Z) :
  status response = 200 →
  (header_content_type response).1
  ∈ [Some "text/html"; Some "application/xml"] →
  let c' := state_of (fetch_response c response url budget) in
  ∃ entry,
    sitemap c' !! resp_url response = Some entry
    ∧ assets entry = [stylesheet_tags (text response); img_tags (text response);
                      script_tags (text response)]
    ∧ (∀ x, x ∈ links entry ↔
            ∃ href, href ∈ anchor_hrefs (text response)
                    ∧ x = normalize_url href response)
    ∧ page_links c response ⊆ links entry
    ∧ (∀ other, other ≠ resp_url response →
                sitemap c' !! other = sitemap c !! other).
Proof.
  intros Hok Htype c'.
  assert (is_redirect response = false) as Hredirect.
  { unfold is_redirect. rewrite Hok. by vm_compute. }
  subst c'. rewrite fetch_response_completed by done. simpl.
  assert (∀ x, x ∈ page_links c response →
               ∃ href, href ∈ anchor_hrefs (text response)
                       ∧ x = normalize_url href response) as Hsub.
  { intros x Hx. by apply (page_links_hrefs c). }
  unfold parse_response. rewrite decide_True by done.
  destruct (header_content_type response) as [content_type pdict]. simpl in Htype.
  rewrite bool_decide_eq_true_2 by done.
  pose proof (λ x, proj1 (scan_links_spec c response x)) as H1. cbv zeta in H1.
  destruct (scan_links _ _ _) as [normalized_urls lks]. simpl in *.
  eexists. split_and!.
  - apply lookup_insert_eq.
  - done.
  - done.
  - intros x Hx. simpl. apply H1. by apply Hsub.
  - intros other Hother. by rewrite lookup_insert_ne.
Qed.

(** X3: handling a response that is no redirect (crawler.py:192-198)
    appends to the queue, each once and each with the full budget
    [max_redirect], exactly the links of the page that were not seen
    before; it appends one record to [visited], whose num_new_urls is the
    number of items queued and whose num_urls is the number of links,
    adds every link to the seen set, and counts one put per queued item
    and no task_done. *)
Theorem completed_fetch_queues_new_links (c : Crawler) (response : Response)
    (url : string) (budget : Z) :
  is_redirect response = false →
  let c' := state_of (fetch_response c response url budget) in
  ∃ new stat,
    items (q c') = items (q c) ++ new
    ∧ visited c' = visited c ++ [stat]
    ∧ seen_urls c' = seen_urls c ∪ page_links c response
    ∧ NoDup new
    ∧ (∀ link b, (link, b) ∈ new ↔
                 link ∈ page_links c response ∧ (link ∉ seen_urls c)
                 ∧ b = max_redirect c)
    ∧ fs_num_new_urls stat = Z.of_nat (length new)
    ∧ fs_num_urls stat = Z.of_nat (size (page_links c response))
    ∧ fs_num_new_urls stat ≤ fs_num_urls stat
    ∧ puts (q c') = (puts (q c) + length new)%nat
    ∧ dones (q c') = dones (q c).
Proof.
  intros Hredirect c'. subst c'. rewrite fetch_response_completed by done. simpl.
  set (fresh := page_links c response ∖ seen_urls c).
  exists ((λ link, (link, max_redirect c)) <$> set_iter fresh), (page_stat c response).
  assert (length (set_iter fresh) = size fresh) as Hlen
    by by rewrite (set_iter_perm _).
  split_and!; try done.
  - apply NoDup_fmap_2; [by intros ?? [=] | apply set_iter_NoDup].
  - intros link b. rewrite list_elem_of_fmap. split.
    + intros (l & [= -> ->] & Hl%set_iter_elem).
      by apply elem_of_difference in Hl as [? ?].
    + intros (Hl & Hnew & ->). exists link. split; [done|].
      apply set_iter_elem. by apply elem_of_difference.
  - by rewrite page_stat_num_new_urls, length_fmap, Hlen.
  - apply page_stat_num_urls.
  - rewrite page_stat_num_new_urls, page_stat_num_urls.
    apply inj_le, subseteq_size. apply subseteq_difference_l. done.
  - by rewrite length_fmap, Hlen.
Qed.

(** X4: fetch (crawler.py:177) appends exactly one record to [visited]
    when the GET is answered by a response that is no redirect, and none
    when it is answered by a redirect or fails with a ClientError; in the
    last case the crawler is unchanged.  The record carries the URL and
    the status of the response and the length of its body, and neither an
    exception nor a next URL. *)
Theorem fetch_records_completed_responses (c : Crawler) (url : string)
    (budget : Z) :
  let c' := state_of (fetch c url budget) in
  visited c'
  = visited c ++ match session c url with
                 | Some response =>
                     if is_redirect response then [] else [page_stat c response]
                 | None => []
                 end
  ∧ (∀ response, session c url = Some response →
       fs_url (page_stat c response) = resp_url response
       ∧ fs_status (page_stat c response) = status response
       ∧ fs_exception (page_stat c response) = None
       ∧ fs_next_url (page_stat c response) = None
       ∧ fs_size (page_stat c response) = Z.of_nat (String.length (body response)))
  ∧ (session c url = None → c' = c).
Proof.
  cbv zeta. unfold fetch. split_and!.
  - destruct (session c url) as [response|]; [|by rewrite app_nil_r].
    destruct (is_redirect response) eqn:Hredirect.
    + unfold fetch_response. rewrite Hredirect.
      destruct (process_redirect_cases c response url budget)
        as [-> | [-> | (next_url & _ & ->)]]; simpl; by rewrite app_nil_r.
    + by rewrite fetch_response_completed.
  - intros response _. unfold page_stat, parse_response.
    destruct (decide (status response = 200)); simpl; [|done].
    destruct (header_content_type response) as [content_type pdict].
    destruct (bool_decide _); [|done]. by destruct (scan_links _ _ _).
  - by intros ->.
Qed.

(** ** The root domain *)

Lemma lower_char_idemp (ch : ascii) :
  PyStr.lower_char (PyStr.lower_char ch) = PyStr.lower_char ch.
Proof. destruct ch as [[] [] [] [] [] [] [] []]; vm_compute; reflexivity. Qed.

Lemma lower_idemp (s : string) : PyStr.lower (PyStr.lower s) = PyStr.lower s.
Proof.
  induction s as [|ch s IH]; [done|]. simpl. by rewrite lower_char_idemp, IH.
Qed.

Lemma lower_char_digit (ch : ascii) :
  PyStr.digit_or_dot ch = true → PyStr.lower_char ch = ch.
Proof. destruct ch as [[] [] [] [] [] [] [] []]; vm_compute; by intros. Qed.

Lemma lower_digits_dots (s : string) :
  PyStr.match_digits_dots s = true → PyStr.lower s = s.
Proof.
  induction s as [|ch s IH]; [done|]. simpl.
  intros [Hch Hs]%andb_true_iff. by rewrite lower_char_digit, IH.
Qed.

Lemma extract_domain_lower (root : string) :
  PyStr.lower (extract_domain root) = extract_domain root.
Proof.
  unfold extract_domain. destruct (splitport _) as [host port].
  destruct (PyStr.match_digits_dots host) eqn:Hdigits.
  - by apply lower_digits_dots.
  - apply lower_idemp.
Qed.

(** The host of the root is in scope of the crawl of that root. *)
Lemma root_host_okay (root : string) (budget tasks : Z)
    (session : string → option Response) :
  host_okay (init root budget tasks session)
            (splitport (netloc (urlparse root))).1 = true.
Proof.
  assert (root_domain (init root budget tasks session) = extract_domain root)
    as Hdomain by done.
  unfold host_okay. rewrite Hdomain. unfold extract_domain.
  destruct (splitport _) as [host port]. simpl.
  destruct (PyStr.match_digits_dots host) eqn:Hdigits.
  - by rewrite lower_digits_dots, decide_True.
  - by rewrite decide_True.
Qed.

Lemma root_url_allowed (root : string) (budget tasks : Z)
    (session : string → option Response) :
  url_allowed (init root budget tasks session) root = true
  ↔ scheme (urlparse root) ∈ ["http"; "https"].
Proof.
  pose proof (root_host_okay root budget tasks session) as Hhost.
  unfold url_allowed.
  destruct (splitport (netloc (urlparse root))) as [host port] eqn:Hsplit.
  simpl in Hhost. rewrite Hhost. simpl.
  destruct (bool_decide (scheme (urlparse root) ∈ ["http"; "https"])) eqn:Hscheme.
  - apply bool_decide_eq_true in Hscheme. by split.
  - apply bool_decide_eq_false in Hscheme. by split.
Qed.

(** X5: the constructor (crawler.py:42, 58) stores the root domain in
    lower case; [host_okay] accepts the host of the root as it is written
    in the root URL, and the root domain itself; and the root passes
    [url_allowed] exactly when its scheme is http or https. *)
Theorem root_host_in_scope (root : string) (budget tasks : Z)
    (session : string → option Response) :
  let c := init root budget tasks session in
  let host := (splitport (netloc (urlparse root))).1 in
  host_okay c host = true
  ∧ PyStr.lower (root_domain c) = root_domain c
  ∧ host_okay c (root_domain c) = true
  ∧ (url_allowed c root = true ↔ scheme (urlparse root) ∈ ["http"; "https"]).
Proof.
  cbv zeta.
  assert (root_domain (init root budget tasks session) = extract_domain root)
    as Hdomain by done.
  split_and!.
  - apply root_host_okay.
  - rewrite Hdomain. apply extract_domain_lower.
  - unfold host_okay. rewrite Hdomain, extract_domain_lower. by rewrite decide_True.
  - apply root_url_allowed.
Qed.

(** X6: for a lower-case [domain] that is not made of digits and dots
    and does not start with www., [host_okay] (crawler.py:74) accepts
    www.domain when the root domain is [domain], and [domain] when the
    root domain is www.domain. *)
Theorem www_hosts_mutually_in_scope (c : Crawler) (domain : string) :
  PyStr.lower domain = domain →
  PyStr.match_digits_dots domain = false →
  PyStr.startswith domain "www." = false →
  (root_domain c = domain → host_okay c ("www." +:+ domain) = true)
  ∧ (root_domain c = "www." +:+ domain → host_okay c domain = true).
Proof.
  intros Hlower Hdigits Hwww. split; intros Hroot; unfold host_okay.
  - assert (PyStr.lower ("www." +:+ domain) = "www." +:+ domain) as ->.
    { change (String "w" (String "w" (String "w" (String "." (PyStr.lower domain))))
              = "www." +:+ domain). by rewrite Hlower. }
    case_decide; [done|].
    change (PyStr.match_digits_dots ("www." +:+ domain)) with false.
    change (PyStr.startswith ("www." +:+ domain) "www.") with true.
    change (PyStr.slice_from 4 ("www." +:+ domain)) with domain.
    by rewrite bool_decide_eq_true_2.
  - rewrite Hlower. case_decide; [done|].
    rewrite Hdigits, Hwww. by rewrite bool_decide_eq_true_2.
Qed.

(** ** The report of main.py *)

Lemma str_lt_le (a b : string) : str_lt a b = true → String.le a b.
Proof.
  unfold str_lt, String.ltb, String.le, String.leb.
  by destruct (String.compare a b).
Qed.

Lemma str_not_lt_le (a b : string) : str_lt a b = false → String.le b a.
Proof.
  unfold str_lt, String.ltb, String.le, String.leb.
  rewrite (String.compare_antisym b a). by destruct (String.compare a b).
Qed.

Lemma str_lt_irrefl (a : string) : str_lt a a = false.
Proof.
  unfold str_lt, String.ltb.
  pose proof (String.compare_antisym a a) as H.
  by destruct (String.compare a a).
Qed.

Lemma insert_by_url_perm (data : FetchStatistic) (l : list FetchStatistic) :
  insert_by_url data l ≡ₚ data :: l.
Proof.
  induction l as [|other rest IH]; [done|]. simpl.
  destruct (str_lt _ _); [|done]. rewrite IH. apply Permutation_swap.
Qed.

Lemma insert_by_url_sorted (data : FetchStatistic) (l : list FetchStatistic) :
  StronglySorted by_url l → StronglySorted by_url (insert_by_url data l).
Proof.
  induction 1 as [|other rest Hsorted IH Hall]; simpl.
  { repeat constructor. }
  destruct (str_lt (fs_url other) (fs_url data)) eqn:Hlt.
  - constructor; [done|]. rewrite insert_by_url_perm.
    constructor; [by apply str_lt_le | done].
  - apply str_not_lt_le in Hlt. constructor; [by constructor|].
    constructor; [done|].
    eapply Forall_impl; [exact Hall|]. intros x Hx. unfold by_url in *.
    by etrans.
Qed.

Lemma insert_by_url_filter (data : FetchStatistic) (l : list FetchStatistic)
    (url : string) :
  filter (λ d, fs_url d = url) (insert_by_url data l)
  = filter (λ d, fs_url d = url) (data :: l).
Proof.
  induction l as [|other rest IH]; [done|]. simpl.
  destruct (str_lt (fs_url other) (fs_url data)) eqn:Hlt; [|done].
  rewrite !filter_cons, IH, !filter_cons.
  destruct (decide (fs_url other = url)) as [Ho|]; [|done].
  destruct (decide (fs_url data = url)) as [Hd|]; [|done].
  rewrite Ho, Hd, str_lt_irrefl in Hlt. done.
Qed.

Lemma sort_by_url_spec (visited : list FetchStatistic) :
  sort_by_url visited ≡ₚ visited
  ∧ StronglySorted by_url (sort_by_url visited)
  ∧ same_order_per_url (sort_by_url visited) visited.
Proof.
  unfold same_order_per_url.
  induction visited as [|data visited (Hperm & Hsorted & Hstable)]; simpl.
  { split_and!; [done | constructor | done]. }
  split_and!.
  - by rewrite insert_by_url_perm, Hperm.
  - by apply insert_by_url_sorted.
  - intros url. by rewrite insert_by_url_filter, !filter_cons, Hstable.
Qed.

(** Two lists ordered by URL that keep the records of each URL in the
    same order are the same list. *)
Lemma stable_sorted_unique (l1 l2 : list FetchStatistic) :
  StronglySorted by_url l1 → StronglySorted by_url l2 →
  same_order_per_url l1 l2 → l1 = l2.
Proof.
  unfold same_order_per_url.
  intros Hs1. revert l2. induction Hs1 as [|x l1 Hs1 IH Hall1]; intros l2 Hs2 Hsame.
  - destruct l2 as [|y l2]; [done|].
    specialize (Hsame (fs_url y)). rewrite filter_cons, decide_True in Hsame by done.
    done.
  - destruct Hs2 as [|y l2 Hs2 Hall2].
    { specialize (Hsame (fs_url x)).
      rewrite filter_cons, decide_True in Hsame by done. done. }
    assert (x ∈ y :: l2) as Hx.
    { pose proof (Hsame (fs_url x)) as H.
      rewrite (filter_cons _ x), decide_True in H by done.
      assert (x ∈ filter (λ d, fs_url d = fs_url x) (y :: l2)) as Hin
        by (rewrite <- H; by left).
      by apply list_elem_of_filter in Hin as [_ ?]. }
    assert (y ∈ x :: l1) as Hy.
    { pose proof (Hsame (fs_url y)) as H.
      rewrite (filter_cons _ y), decide_True in H by done.
      assert (y ∈ filter (λ d, fs_url d = fs_url y) (x :: l1)) as Hin
        by (rewrite H; by left).
      by apply list_elem_of_filter in Hin as [_ ?]. }
    assert (fs_url x = fs_url y) as Hurl.
    { apply (anti_symm String.le).
      - apply elem_of_cons in Hy as [->|Hy]; [done|].
        by apply (proj1 (Forall_forall _ _) Hall1).
      - apply elem_of_cons in Hx as [->|Hx]; [done|].
        by apply (proj1 (Forall_forall _ _) Hall2). }
    assert (x = y) as ->.
    { pose proof (Hsame (fs_url x)) as H.
      rewrite !filter_cons, decide_True, decide_True in H by done.
      by injection H. }
    f_equal. apply IH; [done|]. intros url. specialize (Hsame url).
    rewrite !filter_cons in Hsame. destruct (decide _); [by injection Hsame | done].
Qed.

(** X7: the report of main.py (main.py:58-72).  The sorted list holds
    the records of [visited], ordered by URL, records of the same URL in
    the order they had (the sort is stable), and it is the only list with
    these properties; the report has one line per record, line [i] being
    the count [i + 1], the URL and the status of the [i]-th record. *)
Theorem report_sorted_by_url (visited : list FetchStatistic) :
  sort_by_url visited ≡ₚ visited
  ∧ StronglySorted by_url (sort_by_url visited)
  ∧ same_order_per_url (sort_by_url visited) visited
  ∧ (∀ sorted, StronglySorted by_url sorted →
               same_order_per_url sorted visited →
               sorted = sort_by_url visited)
  ∧ length (report_lines visited) = length visited
  ∧ (∀ i line, report_lines visited !! i = Some line →
       ∃ data, sort_by_url visited !! i = Some data
               ∧ line = pretty (S i) +:+ ". " +:+ fs_url data +:+ "  "
                        +:+ pretty (fs_status data) +:+ String "010"%char "").
Proof.
  destruct (sort_by_url_spec visited) as (Hperm & Hsorted & Hstable).
  split_and!; try done.
  - intros sorted Hs Hsame. apply stable_sorted_unique; [done..|].
    intros url. by rewrite Hsame, Hstable.
  - unfold report_lines. by rewrite length_imap, Hperm.
  - unfold report_lines. intros i line Hline.
    rewrite list_lookup_imap in Hline.
    destruct (sort_by_url visited !! i) as [data|]; [|done].
    injection Hline as <-. by exists data.
Qed.

(** ** The pool on any site *)

(** What one action of the pool can be. *)
Lemma do_action_cases (a : action) (s s' : Crawl) :
  do_action a s = Some s' →
  joined s = false
  ∧ ((∃ i url budget rest w,
        workers s !! i = Some Waiting
        ∧ items (q (crawler s)) = (url, budget) :: rest
        ∧ ((url ∈ seen_urls (crawler s) ∧ w = Fetching url budget)
           ∨ ((url ∉ seen_urls (crawler s)) ∧ w = Failed AssertionError))
        ∧ s' = mkCrawl (set_q (mkQueue rest (puts (q (crawler s)))
                                       (dones (q (crawler s)))) (crawler s))
                       (<[i := w]> (workers s)) false)
     ∨ (∃ i url budget,
          workers s !! i = Some (Fetching url budget)
          ∧ session (crawler s) url = None
          ∧ s' = mark_done i (crawler s) (workers s))
     ∨ (∃ i url budget response w,
          workers s !! i = Some (Fetching url budget)
          ∧ session (crawler s) url = Some response
          ∧ ((w = Releasing
              ∧ ∃ c', fetch_response (crawler s) response url budget = Returned c')
             ∨ (∃ e c', w = Failed e
                  ∧ fetch_response (crawler s) response url budget = Raised e c'))
          ∧ s' = mkCrawl (state_of (fetch_response (crawler s) response url budget))
                         (<[i := w]> (workers s)) false)
     ∨ (∃ i, workers s !! i = Some Releasing
             ∧ s' = mark_done i (crawler s) (workers s))
     ∨ (unfinished_tasks (q (crawler s)) = 0%nat
        ∧ s' = mkCrawl (crawler s) (cancel <$> workers s) true)).
Proof.
  intros Hstep. unfold do_action in Hstep.
  destruct (joined s); [done|]. split; [done|].
  destruct a as [i|i|i|].
  - destruct (workers s !! i) as [[]|] eqn:Hi; try done.
    destruct (items (q (crawler s))) as [|[url budget] rest] eqn:Hitems; [done|].
    simpl in Hstep. left.
    case_decide; injection Hstep as <-; eexists i, url, budget, rest, _;
      split_and!; eauto.
  - destruct (workers s !! i) as [[| url budget | | |]|] eqn:Hi; try done.
    destruct (session (crawler s) url) as [response|] eqn:Hsession.
    + right; right; left.
      destruct (fetch_response _ _ _ _) as [c'|e c'] eqn:Hfetch;
        injection Hstep as <-; eexists i, url, budget, response, _;
        (split_and!; [done | done | | by rewrite Hfetch]).
      * left. eauto.
      * right. eauto.
    + right; left. injection Hstep as <-. by exists i, url, budget.
  - destruct (workers s !! i) as [[]|] eqn:Hi; try done.
    injection Hstep as <-. right; right; right; left. by exists i.
  - case_decide; [|done]. injection Hstep as <-. by repeat right.
Qed.

Lemma held_swap (ws : list Worker) (i : nat) (w0 w : Worker) :
  ws !! i = Some w0 →
  held_url w0 ++ mjoin (held_url <$> <[i := w]> ws)
  ≡ₚ held_url w ++ mjoin (held_url <$> ws).
Proof.
  revert i. induction ws as [|w' ws IH]; intros [|i] Hi; simplify_eq/=.
  - apply Permutation_app_swap_app.
  - specialize (IH _ Hi).
    change (held_url w0 ++ held_url w' ++ mjoin (held_url <$> <[i:=w]> ws)
            ≡ₚ held_url w ++ held_url w' ++ mjoin (held_url <$> ws)).
    rewrite (Permutation_app_swap_app (held_url w0)), IH.
    apply Permutation_app_swap_app.
Qed.

Lemma all_waiting (ws : list Worker) :
  Forall alive_or_lost ws →
  sum_list_with is_fetching ws = 0%nat →
  sum_list_with is_releasing ws = 0%nat →
  sum_list_with is_failed ws = 0%nat →
  Forall (λ w, w = Cancelled) (cancel <$> ws).
Proof.
  induction 1 as [|w ws Hw _ IH]; simpl; [constructor|].
  intros HF HR Hd. destruct w; simpl in *; try lia; try done.
  constructor; [done|]. by apply IH.
Qed.

Lemma fetching_positive (ws : list Worker) (i : nat) (url : string) (budget : Z) :
  ws !! i = Some (Fetching url budget) → (0 < sum_list_with is_fetching ws)%nat.
Proof.
  intros Hi. pose proof (sum_list_with_insert is_fetching ws i _ Waiting Hi).
  simpl in *. lia.
Qed.

Lemma releasing_positive (ws : list Worker) (i : nat) :
  ws !! i = Some Releasing → (0 < sum_list_with is_releasing ws)%nat.
Proof.
  intros Hi. pose proof (sum_list_with_insert is_releasing ws i _ Waiting Hi).
  simpl in *. lia.
Qed.

(** What a handled response admits. *)
Lemma fetch_response_admitted (c : Crawler) (response : Response)
    (url : string) (budget : Z) :
  let o := fetch_response c response url budget in
  ∃ new,
    admission c (state_of o) new
    ∧ (∀ x b, (x, b) ∈ new → b = max_redirect c ∨ (b = budget - 1 ∧ budget > 0))
    ∧ (∀ x, x ∈ new.*1 →
         (is_redirect response = true
          ∧ ∃ location, headers response !! "location" = Some location
                        ∧ x = urljoin url location)
         ∨ (is_redirect response = false ∧ x ∈ page_links c response))
    ∧ (length (visited (state_of o)) ≤ S (length (visited c)))%nat
    ∧ (∀ e c', o = Raised e c' →
         e = KeyError "location" ∧ is_redirect response = true
         ∧ headers response !! "location" = None).
Proof.
  cbv zeta.
  assert (admission c c []) as Hnone.
  { unfold admission. simpl. rewrite app_nil_r, Nat.add_0_r, union_empty_r_L.
    split_and!;
      first [ done | apply NoDup_nil_2 | by intros ? []%elem_of_nil
            | apply same_config_refl ]. }
  destruct (is_redirect response) eqn:Hredirect.
  - unfold fetch_response. rewrite Hredirect. unfold process_redirect.
    destruct (headers response !! "location") as [location|] eqn:Hloc.
    2:{ exists []. simpl. split_and!; try done.
        - by intros ? ? []%elem_of_nil.
        - by intros ? []%elem_of_nil.
        - lia.
        - by intros e c' [= <- <-]. }
    destruct (decide (urljoin url location ∈ seen_urls c)) as [Hseen|Hnew].
    { exists []. simpl. split_and!; try done.
      - by intros ? ? []%elem_of_nil.
      - by intros ? []%elem_of_nil.
      - lia. }
    destruct (decide (budget > 0)) as [Hbudget|Hexhausted].
    2:{ exists []. simpl. split_and!; try done.
        - by intros ? ? []%elem_of_nil.
        - by intros ? []%elem_of_nil.
        - lia. }
    exists [(urljoin url location, budget - 1)]. rewrite add_url_eq. simpl.
    split_and!; try done.
    + unfold admission. simpl.
      split_and!;
        first [ done | lia | apply NoDup_singleton
              | by intros x ->%list_elem_of_singleton
              | by rewrite union_empty_r_L, (comm_L (∪))
              | by repeat split ].
    + intros x b [= -> ->]%list_elem_of_singleton. by right.
    + intros x ->%list_elem_of_singleton. left. split; [done|]. by exists location.
    + lia.
  - rewrite fetch_response_completed by done. simpl.
    set (fresh := page_links c response ∖ seen_urls c).
    exists ((λ link, (link, max_redirect c)) <$> set_iter fresh).
    assert (((λ link, (link, max_redirect c)) <$> set_iter fresh).*1
            = set_iter fresh) as Hfst.
    { rewrite <- list_fmap_compose. apply list_fmap_id. }
    split_and!; try done.
    + unfold admission. simpl. rewrite Hfst, length_fmap.
      split_and!;
        first [ done | by rewrite (set_iter_perm fresh) | apply set_iter_NoDup
              | by repeat split | idtac ].
      * intros x Hx%set_iter_elem. by apply elem_of_difference in Hx as [_ ?].
      * apply set_eq. intros x. rewrite !elem_of_union, elem_of_list_to_set,
          set_iter_elem. unfold fresh. rewrite elem_of_difference.
        destruct (decide (x ∈ seen_urls c)); naive_solver.
    + intros x b (link & [= -> ->] & _)%list_elem_of_fmap. by left.
    + rewrite Hfst. intros x Hx%set_iter_elem. right. split; [done|].
      by apply elem_of_difference in Hx as [? _].
    + rewrite length_app. simpl. lia.
Qed.

Lemma pending_swap (c' : Crawler) (ws : list Worker) (i : nat) (w0 w : Worker)
    (j : bool) :
  ws !! i = Some w0 →
  held_url w0 ++ pending (mkCrawl c' (<[i := w]> ws) j)
  ≡ₚ held_url w ++ (items (q c')).*1 ++ mjoin (held_url <$> ws).
Proof.
  intros Hi. unfold pending. cbn [crawler workers].
  rewrite (Permutation_app_swap_app (held_url w0)), (held_swap ws i w0 w Hi).
  apply Permutation_app_swap_app.
Qed.

Lemma crawl_inv_get (c0 : Crawler) (s : Crawl) (i : nat) (url : string)
    (budget : Z) (rest : list (string * Z)) (w : Worker) :
  crawl_inv c0 s → joined s = false →
  workers s !! i = Some Waiting →
  items (q (crawler s)) = (url, budget) :: rest →
  (url ∈ seen_urls (crawler s) ∧ w = Fetching url budget)
  ∨ ((url ∉ seen_urls (crawler s)) ∧ w = Failed AssertionError) →
  crawl_inv c0
    (mkCrawl (set_q (mkQueue rest (puts (q (crawler s))) (dones (q (crawler s))))
                    (crawler s))
             (<[i := w]> (workers s)) false).
Proof.
  intros (Hconfig & Hlen & Halive & Hcount & _ & Hpending & Hnodup & Hputs
          & Hvisited & Hitems & Hheld) Hj Hi Hq Hw.
  specialize (Halive Hj). specialize (Hcount Hj).
  assert (url ∈ seen_urls (crawler s)) as Hseen.
  { apply Hpending. unfold pending. rewrite Hq. by left. }
  destruct Hw as [[_ ->] | [? _]]; [|done].
  pose proof (pending_swap
                (set_q (mkQueue rest (puts (q (crawler s))) (dones (q (crawler s))))
                       (crawler s))
                (workers s) i Waiting (Fetching url budget) false Hi) as Hperm.
  simpl in Hperm.
  assert (pending (mkCrawl (set_q (mkQueue rest (puts (q (crawler s)))
                                           (dones (q (crawler s)))) (crawler s))
                           (<[i := Fetching url budget]> (workers s)) false)
          ≡ₚ pending s) as Hsame.
  { rewrite Hperm. unfold pending. by rewrite Hq. }
  pose proof (sum_list_with_insert is_fetching _ _ _ (Fetching url budget) Hi) as HF.
  pose proof (sum_list_with_insert is_releasing _ _ _ (Fetching url budget) Hi) as HR.
  pose proof (sum_list_with_insert is_failed _ _ _ (Fetching url budget) Hi) as HD.
  unfold crawl_inv. rewrite Hsame.
  unfold fetching_count, releasing_count, failed_count in *.
  cbn [crawler workers joined set_q q items puts dones seen_urls visited] in *.
  rewrite Hq in Hcount, Hitems. simpl in HF, HR, HD, Hcount.
  split_and!.
  - destruct Hconfig as (? & ? & ? & ? & ?). by repeat split.
  - by rewrite length_insert.
  - intros _. by apply Forall_insert.
  - intros _. lia.
  - by intros [=].
  - intros u Hu. rewrite Hsame in Hu. by apply Hpending.
  - done.
  - done.
  - done.
  - intros u b Hin. apply (Hitems u). by right.
  - intros j u b [(_ & [= -> ->] & _) | [_ Hj']]%list_lookup_insert_Some.
    + apply (Hitems u). by left.
    + by eapply Hheld.
Qed.

Lemma crawl_inv_finish (c0 : Crawler) (s : Crawl) (i : nat) (w0 : Worker) :
  crawl_inv c0 s → joined s = false →
  workers s !! i = Some w0 →
  (w0 = Releasing ∨ ∃ url budget, w0 = Fetching url budget) →
  crawl_inv c0 (mark_done i (crawler s) (workers s)).
Proof.
  intros (Hconfig & Hlen & Halive & Hcount & _ & Hpending & Hnodup & Hputs
          & Hvisited & Hitems & Hheld) Hj Hi Hw0.
  specialize (Halive Hj). specialize (Hcount Hj).
  pose proof (sum_list_with_insert is_fetching _ _ _ Waiting Hi) as HF.
  pose proof (sum_list_with_insert is_releasing _ _ _ Waiting Hi) as HR.
  pose proof (sum_list_with_insert is_failed _ _ _ Waiting Hi) as HD.
  unfold fetching_count, releasing_count, failed_count in *.
  assert (is_fetching w0 + is_releasing w0 = 1 ∧ is_failed w0 = 0)%nat as [H1 H0].
  { destruct Hw0 as [->|(? & ? & ->)]; by simpl. }
  destruct (mark_done_cases i (crawler s) (workers s))
    as [[_ ->] | [Hzero _]]; [|unfold unfinished_tasks in Hzero; simpl in *; lia].
  pose proof (pending_swap
                (set_q (mkQueue (items (q (crawler s))) (puts (q (crawler s)))
                                (S (dones (q (crawler s))))) (crawler s))
                (workers s) i w0 Waiting false Hi) as Hperm.
  simpl in Hperm. fold (pending s) in Hperm.
  set (s' := mkCrawl _ _ _) in *.
  assert (∀ u, u ∈ pending s' → u ∈ pending s) as Hsub.
  { intros u Hu. rewrite <- Hperm. apply elem_of_app. by right. }
  assert (NoDup (pending s')) as Hnodup'.
  { rewrite <- Hperm in Hnodup. by apply NoDup_app in Hnodup as (_ & _ & ?). }
  assert (length (pending s') ≤ length (pending s))%nat as Hle.
  { rewrite <- Hperm, length_app. lia. }
  unfold crawl_inv. subst s'.
  cbn [crawler workers joined set_q q items puts dones seen_urls visited] in *.
  simpl in HF, HR, HD.
  split_and!.
  - destruct Hconfig as (? & ? & ? & ? & ?). by repeat split.
  - by rewrite length_insert.
  - intros _. by apply Forall_insert.
  - intros _. unfold fetching_count, releasing_count, failed_count. simpl. lia.
  - by intros [=].
  - intros u Hu. by apply Hpending, Hsub.
  - done.
  - done.
  - lia.
  - done.
  - intros j u b [(_ & [=] & _) | [_ Hj']]%list_lookup_insert_Some.
    by eapply Hheld.
Qed.

Lemma size_admitted (seen : gset string) (urls : list string) :
  NoDup urls → (∀ url, url ∈ urls → url ∉ seen) →
  size (seen ∪ list_to_set urls) = (size seen + length urls)%nat.
Proof.
  intros Hnodup Hfresh. rewrite size_union, size_list_to_set; [done..|].
  intros url Hseen Hin%elem_of_list_to_set. by apply (Hfresh url).
Qed.

Lemma crawl_inv_response (c0 : Crawler) (s : Crawl) (i : nat) (url : string)
    (budget : Z) (response : Response) (w : Worker) :
  crawl_inv c0 s → joined s = false →
  workers s !! i = Some (Fetching url budget) →
  (w = Releasing
   ∧ ∃ c', fetch_response (crawler s) response url budget = Returned c')
  ∨ (∃ e c', w = Failed e
       ∧ fetch_response (crawler s) response url budget = Raised e c') →
  crawl_inv c0
    (mkCrawl (state_of (fetch_response (crawler s) response url budget))
             (<[i := w]> (workers s)) false).
Proof.
  intros (Hconfig & Hlen & Halive & Hcount & _ & Hpending & Hnodup & Hputs
          & Hvisited & Hitems & Hheld) Hj Hi Hw.
  specialize (Halive Hj). specialize (Hcount Hj).
  destruct (fetch_response_admitted (crawler s) response url budget)
    as (new & Hadmitted & Hbudgets & _ & Hrecord & Hexn).
  destruct Hadmitted as (Hq' & Hputs' & Hdones' & Hnew & Hfresh & Hseen' & Hconfig').
  assert (held_url w = [] ∧ alive_or_lost w
          ∧ (is_releasing w + is_failed w = 1)%nat ∧ is_fetching w = 0%nat
          ∧ ∀ u b, w ≠ Fetching u b) as (Hheldw & Halivew & Hone & Hzero & Hnot).
  { destruct Hw as [[-> _] | (e & cx & -> & Hraised)]; [done|].
    destruct (Hexn e cx Hraised) as (-> & _). done. }
  set (c' := state_of (fetch_response (crawler s) response url budget)) in *.
  set (s' := mkCrawl c' (<[i := w]> (workers s)) false).
  assert (url :: pending s' ≡ₚ new.*1 ++ pending s) as Hperm.
  { pose proof (pending_swap c' (workers s) i _ w false Hi) as Hperm.
    rewrite Hheldw, Hq', fmap_app in Hperm. simpl in Hperm.
    fold s' in Hperm. rewrite Hperm. unfold pending.
    by rewrite (comm (++) ((items (q (crawler s))).*1)), <- (assoc (++)). }
  assert (NoDup (pending s')) as Hnodup'.
  { assert (NoDup (url :: pending s')) as Hcons.
    { rewrite Hperm. apply NoDup_app. split_and!; [done | | done].
      intros x Hx Hp. by apply (Hfresh x Hx), Hpending. }
    by apply NoDup_cons in Hcons as [_ ?]. }
  assert (∀ u, u ∈ pending s' → u ∈ seen_urls c') as Hpending'.
  { intros u Hu. assert (u ∈ url :: pending s') as Hin by by right.
    rewrite Hperm in Hin. rewrite Hseen'.
    apply elem_of_app in Hin as [Hin|Hin].
    - apply elem_of_union_r. by apply elem_of_list_to_set.
    - apply elem_of_union_l. by apply Hpending. }
  assert (S (length (pending s')) = length new + length (pending s))%nat as Hlen'.
  { change (length (url :: pending s') = length new + length (pending s))%nat.
    by rewrite Hperm, length_app, length_fmap. }
  assert (size (seen_urls c') = size (seen_urls (crawler s)) + length new)%nat
    as Hsize.
  { by rewrite Hseen', size_admitted, length_fmap. }
  pose proof (sum_list_with_insert is_fetching _ _ _ w Hi) as HF.
  pose proof (sum_list_with_insert is_releasing _ _ _ w Hi) as HR.
  pose proof (sum_list_with_insert is_failed _ _ _ w Hi) as HD.
  simpl in HF, HR, HD.
  unfold crawl_inv. unfold fetching_count, releasing_count, failed_count in *.
  cbn [crawler workers joined s'].
  split_and!.
  - by eapply same_config_trans.
  - by rewrite length_insert.
  - intros _. by apply Forall_insert.
  - intros _. rewrite Hq', Hputs', Hdones', length_app. lia.
  - by intros [=].
  - done.
  - done.
  - by rewrite Hputs', Hsize, Hputs.
  - fold s'. lia.
  - intros u b. rewrite Hq'. intros [Hold|Hin]%elem_of_app; [by eapply Hitems|].
    destruct Hconfig as (_ & HM & _).
    destruct (Hbudgets u b Hin) as [->|[-> Hpos]]; [by left|].
    destruct (Hheld i url budget Hi) as [->|?]; right; lia.
  - intros j u b [(_ & Heq & _) | [_ Hj']]%list_lookup_insert_Some.
    + by destruct (Hnot u b).
    + by eapply Hheld.
Qed.

Lemma crawl_inv_join (c0 : Crawler) (s : Crawl) :
  crawl_inv c0 s → joined s = false →
  unfinished_tasks (q (crawler s)) = 0%nat →
  crawl_inv c0 (mkCrawl (crawler s) (cancel <$> workers s) true).
Proof.
  intros (Hconfig & Hlen & Halive & Hcount & _ & Hpending & Hnodup & Hputs
          & Hvisited & Hitems & Hheld) Hj Hzero.
  specialize (Halive Hj). specialize (Hcount Hj).
  unfold unfinished_tasks in Hzero.
  unfold fetching_count, releasing_count, failed_count in *.
  assert (items (q (crawler s)) = []) as Hempty by (apply nil_length_inv; lia).
  assert (pending (mkCrawl (crawler s) (cancel <$> workers s) true) = []) as Hnone.
  { unfold pending. cbn [crawler workers]. by rewrite Hempty, held_cancel. }
  unfold crawl_inv. rewrite Hnone. cbn [crawler workers joined].
  split_and!.
  - done.
  - by rewrite length_fmap.
  - by intros [=].
  - by intros [=].
  - intros _. split; [split; [lia | done]|]. apply all_waiting; [done | lia..].
  - by intros u []%elem_of_nil.
  - apply NoDup_nil_2.
  - done.
  - simpl. lia.
  - done.
  - intros j u b Hj'. rewrite list_lookup_fmap in Hj'.
    by destruct (workers s !! j) as [[]|].
Qed.

Lemma crawl_inv_step (c0 : Crawler) (a : action) (s s' : Crawl) :
  crawl_inv c0 s → do_action a s = Some s' → crawl_inv c0 s'.
Proof.
  intros Hinv Hstep.
  apply do_action_cases in Hstep
    as [Hj [(i & url & budget & rest & w & Hi & Hq & Hw & ->)
           | [(i & url & budget & Hi & Hsession & ->)
             | [(i & url & budget & response & w & Hi & Hsession & Hw & ->)
               | [(i & Hi & ->) | [Hzero ->]]]]]].
  - by eapply crawl_inv_get.
  - eapply crawl_inv_finish; eauto.
  - by eapply crawl_inv_response.
  - eapply crawl_inv_finish; eauto.
  - by apply crawl_inv_join.
Qed.

Lemma crawl_inv_run (c0 : Crawler) (sched : list action) (s s' : Crawl) :
  crawl_inv c0 s → run sched s = Some s' → crawl_inv c0 s'.
Proof.
  revert s. induction sched as [|a sched IH]; intros s Hinv Hrun; simpl in Hrun.
  - by injection Hrun as <-.
  - destruct (do_action a s) as [s1|] eqn:Hstep; [|done].
    eapply IH; [|done]. by eapply crawl_inv_step.
Qed.

Lemma crawl_inv_crawl (root : string) (M tasks : Z)
    (session : string → option Response) :
  crawl_inv (init root M tasks session) (crawl (init root M tasks session)).
Proof.
  destruct (init_state root M tasks session)
    as (Hseen & Hitems & Hputs & Hdones & Hvisited & Hroot & Htasks).
  set (c0 := init root M tasks session) in *.
  assert (pending (crawl c0) = [root]) as Hpending.
  { unfold pending, crawl. cbn [crawler workers].
    by rewrite Hitems, held_replicate_waiting. }
  unfold crawl_inv. rewrite Hpending.
  unfold fetching_count, releasing_count, failed_count, crawl.
  cbn [crawler workers joined].
  rewrite !sum_list_with_replicate_waiting by done.
  rewrite Hseen, Hitems, Hputs, Hdones, Hvisited, size_singleton.
  split_and!.
  - apply same_config_refl.
  - apply length_replicate.
  - intros _. by apply Forall_replicate.
  - done.
  - by intros [=].
  - intros url ->%list_elem_of_singleton. by apply elem_of_singleton.
  - apply NoDup_singleton.
  - done.
  - simpl. lia.
  - intros url budget [= -> ->]%list_elem_of_singleton. by left.
  - intros i url budget [[=] _]%lookup_replicate.
Qed.

(** ** Termination on a finite site *)

Lemma site_within_admits (c0 c : Crawler) (U : gset string) (url : string)
    (response : Response) (urls : list string) :
  same_config c0 c → site_within c0 U → url ∈ U →
  session c url = Some response →
  (∀ x, x ∈ urls →
     (is_redirect response = true
      ∧ ∃ location, headers response !! "location" = Some location
                    ∧ x = urljoin url location)
     ∨ (is_redirect response = false ∧ x ∈ page_links c response)) →
  ∀ x, x ∈ urls → x ∈ U.
Proof.
  intros (_ & _ & _ & Hsession & Hdomain) [_ Hsite] Hurl Hget Hnew x Hx.
  rewrite Hsession in Hget.
  destruct (Hsite url response Hurl Hget) as [Hredirect Hpage].
  destruct (Hnew x Hx) as [(Hr & location & Hloc & ->) | [Hr Hin]].
  - by eapply Hredirect.
  - apply (Hpage Hr). by rewrite <- (page_links_root_domain c0 c).
Qed.

Lemma crawl_measure_step (c0 : Crawler) (U : gset string) (a : action)
    (s s' : Crawl) :
  crawl_inv c0 s → site_within c0 U → seen_urls (crawler s) ⊆ U →
  do_action a s = Some s' →
  seen_urls (crawler s') ⊆ U
  ∧ (crawl_measure (size U) s' < crawl_measure (size U) s)%nat.
Proof.
  intros Hinv Hsite Hin Hstep.
  pose proof Hinv as (Hconfig & Hlen & Halive & Hcount & _ & Hpending & Hnodup
                      & Hputs & Hvisited & Hitems & Hheld).
  apply do_action_cases in Hstep
    as [Hj [(i & url & budget & rest & w & Hi & Hq & Hw & ->)
           | [(i & url & budget & Hi & Hsession & ->)
             | [(i & url & budget & response & w & Hi & Hsession & Hw & ->)
               | [(i & Hi & ->) | [Hzero ->]]]]]];
    specialize (Hcount Hj); unfold crawl_measure; rewrite Hj;
    unfold fetching_count, releasing_count, failed_count in *.
  - assert (url ∈ seen_urls (crawler s)) as Hseen.
    { apply Hpending. unfold pending. rewrite Hq. by left. }
    destruct Hw as [[_ ->] | [? _]]; [|done].
    pose proof (sum_list_with_insert is_fetching _ _ _ (Fetching url budget) Hi) as HF.
    pose proof (sum_list_with_insert is_releasing _ _ _ (Fetching url budget) Hi) as HR.
    cbn [crawler workers joined set_q q items puts dones seen_urls].
    rewrite Hq. simpl in *. split; [done | lia].
  - pose proof (sum_list_with_insert is_fetching _ _ _ Waiting Hi) as HF.
    pose proof (sum_list_with_insert is_releasing _ _ _ Waiting Hi) as HR.
    destruct (mark_done_cases i (crawler s) (workers s))
      as [[_ ->] | [Hzero _]]; [|unfold unfinished_tasks in Hzero; simpl in *; lia].
    cbn [crawler workers joined set_q q items puts dones seen_urls].
    simpl in *. split; [done | lia].
  - destruct (fetch_response_admitted (crawler s) response url budget)
      as (new & Hadmitted & _ & Hfrom & _ & Hexn).
    destruct Hadmitted as (Hq' & Hputs' & Hdones' & Hnew & Hfresh & Hseen' & Hconfig').
    assert (url ∈ U) as HurlU.
    { apply Hin, Hpending. unfold pending. apply elem_of_app. right.
      by eapply held_lookup. }
    pose proof (site_within_admits c0 (crawler s) U url response new.*1
                  Hconfig Hsite HurlU Hsession Hfrom) as HnewU.
    assert (is_releasing w ≤ 1 ∧ is_fetching w = 0)%nat as [Hone Hnone].
    { destruct Hw as [[-> _] | (e & cx & -> & _)]; simpl; lia. }
    pose proof (sum_list_with_insert is_fetching _ _ _ w Hi) as HF.
    pose proof (sum_list_with_insert is_releasing _ _ _ w Hi) as HR.
    set (c' := state_of (fetch_response (crawler s) response url budget)) in *.
    assert (seen_urls c' ⊆ U) as Hin'.
    { rewrite Hseen'. apply union_least; [done|].
      intros x Hx%elem_of_list_to_set. by apply HnewU. }
    assert (size (seen_urls c') = size (seen_urls (crawler s)) + length new)%nat
      as Hsize by by rewrite Hseen', size_admitted, length_fmap.
    pose proof (subseteq_size _ _ Hin') as Hle.
    cbn [crawler workers joined]. rewrite Hq', length_app.
    simpl in *. split; [done | lia].
  - pose proof (sum_list_with_insert is_fetching _ _ _ Waiting Hi) as HF.
    pose proof (sum_list_with_insert is_releasing _ _ _ Waiting Hi) as HR.
    destruct (mark_done_cases i (crawler s) (workers s))
      as [[_ ->] | [Hzero _]]; [|unfold unfinished_tasks in Hzero; simpl in *; lia].
    cbn [crawler workers joined set_q q items puts dones seen_urls].
    simpl in *. split; [done | lia].
  - simpl. split; [done | lia].
Qed.

Lemma crawl_measure_run (c0 : Crawler) (U : gset string) (sched : list action)
    (s s' : Crawl) :
  crawl_inv c0 s → site_within c0 U → seen_urls (crawler s) ⊆ U →
  run sched s = Some s' →
  seen_urls (crawler s') ⊆ U
  ∧ (crawl_measure (size U) s' + length sched ≤ crawl_measure (size U) s)%nat.
Proof.
  intros Hinv Hsite. revert s Hinv.
  induction sched as [|a sched IH]; intros s Hinv Hin Hrun; simpl in Hrun.
  - injection Hrun as <-. simpl. split; [done | lia].
  - destruct (do_action a s) as [s1|] eqn:Hstep; [|done].
    destruct (crawl_measure_step c0 U a s s1 Hinv Hsite Hin Hstep) as [Hin1 Hless].
    destruct (IH s1 (crawl_inv_step _ _ _ _ Hinv Hstep) Hin1 Hrun) as [Hin' Hle].
    split; [done|]. simpl. lia.
Qed.

Lemma crawl_measure_crawl (root : string) (M tasks : Z)
    (session : string → option Response) (U : gset string) :
  root ∈ U →
  let c0 := init root M tasks session in
  seen_urls (crawler (crawl c0)) ⊆ U
  ∧ crawl_measure (size U) (crawl c0) = (3 * size U + 1)%nat.
Proof.
  intros Hroot c0.
  destruct (init_state root M tasks session)
    as (Hseen & Hitems & Hputs & Hdones & Hvisited & _ & Htasks).
  fold c0 in Hseen, Hitems.
  assert ({[root]} ⊆ U) as Hsub by by apply singleton_subseteq_l.
  unfold crawl_measure, fetching_count, releasing_count, crawl.
  cbn [crawler workers joined].
  rewrite !sum_list_with_replicate_waiting by done.
  rewrite Hseen, Hitems, size_singleton. split; [done|].
  pose proof (subseteq_size _ _ Hsub) as Hle. rewrite size_singleton in Hle.
  simpl. lia.
Qed.

(** ** Workers that die *)






(** ** Sites whose redirects all carry a Location *)







(** ** The records of the crawl *)

Lemma fetch_response_visited (c : Crawler) (response : Response) (url : string)
    (budget : Z) :
  let c' := state_of (fetch_response c response url budget) in
  (is_redirect response = true → visited c' = visited c)
  ∧ (is_redirect response = false →
     visited c' = visited c ++ [page_stat c response]
     ∧ seen_urls c' = seen_urls c ∪ page_links c response).
Proof.
  cbv zeta. split; intros Hredirect.
  - unfold fetch_response. rewrite Hredirect.
    destruct (process_redirect_cases c response url budget)
      as [-> | [-> | (next_url & _ & ->)]]; by rewrite ?add_url_eq.
  - by rewrite fetch_response_completed.
Qed.

Lemma page_stat_record (c0 c : Crawler) (response : Response) (url : string) :
  same_config c0 c → session c url = Some response →
  is_redirect response = false → record_of c0 (page_stat c response) url.
Proof.
  intros (_ & _ & _ & Hsession & Hdomain) Hget Hredirect.
  exists response. rewrite <- Hsession.
  destruct (page_stat_url c response) as [Hurl Hstatus].
  split_and!; [done..|].
  by rewrite page_stat_num_urls, (page_links_root_domain c0 c).
Qed.

(** [task_done] of a worker that holds an item does not raise. *)
Lemma mark_done_ok (c0 : Crawler) (s : Crawl) (i : nat) (w0 : Worker) :
  crawl_inv c0 s → joined s = false → workers s !! i = Some w0 →
  (w0 = Releasing ∨ ∃ url budget, w0 = Fetching url budget) →
  mark_done i (crawler s) (workers s)
  = mkCrawl (set_q (mkQueue (items (q (crawler s))) (puts (q (crawler s)))
                            (S (dones (q (crawler s))))) (crawler s))
            (<[i := Waiting]> (workers s)) false.
Proof.
  intros (_ & _ & _ & Hcount & _) Hj Hi Hw0. specialize (Hcount Hj).
  destruct (mark_done_cases i (crawler s) (workers s)) as [[_ ->] | [Hzero _]]; [done|].
  unfold unfinished_tasks, fetching_count, releasing_count in *.
  destruct Hw0 as [->|(url & budget & ->)].
  - pose proof (releasing_positive _ _ Hi). lia.
  - pose proof (fetching_positive _ _ _ _ Hi). lia.
Qed.

Lemma report_inv_same (c0 : Crawler) (s s' : Crawl) :
  visited (crawler s') = visited (crawler s) →
  seen_urls (crawler s') = seen_urls (crawler s) →
  (∀ u, u ∈ pending s' ↔ u ∈ pending s) →
  report_inv c0 s → report_inv c0 s'.
Proof.
  intros Hv Hs Hp (crawled & Hnd & Hrec & Hiff & Hclosed).
  assert (∀ u, handled s' u ↔ handled s u) as Hh.
  { intros u. unfold handled. by rewrite Hs, Hp. }
  exists crawled. rewrite Hv, Hs. split_and!; [done | done | |].
  - intros u. by rewrite Hiff, Hh.
  - intros u response Hu. apply Hclosed. by apply Hh.
Qed.

(** A worker is done with [url], and the URLs [new] were admitted. *)
Lemma report_inv_handle (c0 : Crawler) (s s' : Crawl) (url : string)
    (new : list string) :
  report_inv c0 s →
  url ∈ pending s → NoDup (pending s) →
  (∀ u, u ∈ pending s → u ∈ seen_urls (crawler s)) →
  url :: pending s' ≡ₚ new ++ pending s →
  NoDup new → (∀ u, u ∈ new → u ∉ seen_urls (crawler s)) →
  seen_urls (crawler s') = seen_urls (crawler s) ∪ list_to_set new →
  (visited (crawler s') = visited (crawler s) ∧ ¬ answers_page c0 url)
  ∨ (∃ response stat,
       session c0 url = Some response ∧ is_redirect response = false
       ∧ visited (crawler s') = visited (crawler s) ++ [stat]
       ∧ record_of c0 stat url
       ∧ page_links c0 response ⊆ seen_urls (crawler s')) →
  report_inv c0 s'.
Proof.
  intros (crawled & Hnd & Hrec & Hiff & Hclosed) Hurl Hnodup Hpending Hperm
         Hnew Hfresh Hseen' Hcase.
  assert (NoDup (url :: pending s')) as Hcons.
  { rewrite Hperm. apply NoDup_app. split_and!; [done | | done].
    intros x Hx Hp. by apply (Hfresh x Hx), Hpending. }
  apply NoDup_cons in Hcons as [Hout _].
  assert (∀ u, u ∈ pending s' ↔ u ≠ url ∧ (u ∈ new ∨ u ∈ pending s)) as Hp'.
  { intros u. split.
    - intros Hu. split; [by intros ->|].
      apply elem_of_app. rewrite <- Hperm. by right.
    - intros [Hne Hu]. apply elem_of_app in Hu. rewrite <- Hperm in Hu.
      by apply elem_of_cons in Hu as [?|?]. }
  assert (∀ u, handled s' u ↔ handled s u ∨ u = url) as Hh.
  { intros u. unfold handled.
    rewrite Hseen', Hp', elem_of_union, elem_of_list_to_set. split.
    - intros [Hin Hnot]. destruct (decide (u = url)) as [->|Hne]; [by right|].
      left. split.
      + destruct Hin as [?|Hin]; [done|]. destruct Hnot. split; [done | by left].
      + intros Hu. destruct Hnot. split; [done | by right].
    - intros [[Hin Hnot] | ->].
      + split; [by left|]. intros [_ [Hu|Hu]]; [by apply (Hfresh u) | done].
      + split; [left; by apply Hpending|]. by intros [? _]. }
  destruct Hcase
    as [[Hv Hno] | (response & stat & Hget & Hredirect & Hv & Hstat & Hlinks)].
  - exists crawled. rewrite Hv. split_and!; [done | done | |].
    + intros u. rewrite Hiff, Hh. split.
      * intros [? ?]. split; [by left | done].
      * intros [[?| ->] ?]; done.
    + intros u response Hu Hget Hredirect. apply Hh in Hu as [Hu| ->].
      * rewrite Hseen'. etrans; [by eapply Hclosed|]. apply union_subseteq_l.
      * destruct Hno. by exists response.
  - exists (crawled ++ [url]). rewrite Hv. split_and!.
    + apply NoDup_app. split_and!; [done | | apply NoDup_singleton].
      intros x Hx ->%list_elem_of_singleton. by apply Hiff in Hx as [[_ Hx] _].
    + apply Forall2_app; [done|]. by repeat constructor.
    + intros u. rewrite elem_of_app, list_elem_of_singleton, Hiff, Hh. split.
      * intros [[? ?] | ->]; [split; [by left | done]|].
        split; [by right|]. by exists response.
      * intros [[?| ->] ?]; [by left | by right].
    + intros u response' Hu Hget' Hredirect'. apply Hh in Hu as [Hu| ->].
      * rewrite Hseen'. etrans; [by eapply Hclosed|]. apply union_subseteq_l.
      * rewrite Hget in Hget'. by injection Hget' as <-.
Qed.

Lemma held_none (ws : list Worker) :
  sum_list_with is_fetching ws = 0%nat → mjoin (held_url <$> ws) = [].
Proof.
  intros Hnone. apply nil_length_inv. by rewrite length_held.
Qed.

Lemma report_inv_step (c0 : Crawler) (a : action) (s s' : Crawl) :
  crawl_inv c0 s → report_inv c0 s → do_action a s = Some s' → report_inv c0 s'.
Proof.
  intros Hinv Hreport Hstep.
  pose proof Hinv as (Hconfig & Hlen & Halive & Hcount & _ & Hpending & Hnodup
                      & Hputs & Hvisited & Hitems & Hheld).
  apply do_action_cases in Hstep
    as [Hj [(i & url & budget & rest & w & Hi & Hq & Hw & ->)
           | [(i & url & budget & Hi & Hsession & ->)
             | [(i & url & budget & response & w & Hi & Hsession & Hw & ->)
               | [(i & Hi & ->) | [Hzero ->]]]]]];
    specialize (Hcount Hj).
  - assert (url ∈ seen_urls (crawler s)) as Hseen.
    { apply Hpending. unfold pending. rewrite Hq. by left. }
    destruct Hw as [[_ ->] | [? _]]; [|done].
    apply (report_inv_same c0 s); [done | done | | done].
    pose proof (pending_swap
                  (set_q (mkQueue rest (puts (q (crawler s))) (dones (q (crawler s))))
                         (crawler s))
                  (workers s) i Waiting (Fetching url budget) false Hi) as Hperm.
    simpl in Hperm. intros u. rewrite Hperm. unfold pending. by rewrite Hq.
  - rewrite (mark_done_ok c0 s i _ Hinv Hj Hi
               (or_intror (ex_intro _ url (ex_intro _ budget eq_refl)))).
    pose proof (pending_swap
                  (set_q (mkQueue (items (q (crawler s))) (puts (q (crawler s)))
                                  (S (dones (q (crawler s))))) (crawler s))
                  (workers s) i _ Waiting false Hi) as Hperm.
    simpl in Hperm. fold (pending s) in Hperm.
    apply (report_inv_handle c0 s _ url []); try done.
    + unfold pending. apply elem_of_app. right. by eapply held_lookup.
    + apply NoDup_nil_2.
    + by intros u []%elem_of_nil.
    + simpl. by rewrite union_empty_r_L.
    + left. split; [done|]. intros (response & Hget & _).
      destruct Hconfig as (_ & _ & _ & Hsame & _). congruence.
  - destruct (fetch_response_admitted (crawler s) response url budget)
      as (new & Hadmitted & _ & _ & _ & Hexn).
    destruct Hadmitted as (Hq' & Hputs' & Hdones' & Hnew & Hfresh & Hseen' & Hconfig').
    destruct (fetch_response_visited (crawler s) response url budget)
      as [Hredirected Hcompleted].
    assert (held_url w = []) as Hheldw.
    { by destruct Hw as [[-> _] | (e & cx & -> & _)]. }
    set (c' := state_of (fetch_response (crawler s) response url budget)) in *.
    pose proof (pending_swap c' (workers s) i _ w false Hi) as Hperm.
    rewrite Hheldw, Hq', fmap_app in Hperm. simpl in Hperm.
    pose proof Hconfig as (_ & _ & _ & Hsame & _).
    apply (report_inv_handle c0 s _ url new.*1); try done.
    + unfold pending. apply elem_of_app. right. by eapply held_lookup.
    + rewrite Hperm. unfold pending.
      by rewrite (comm (++) ((items (q (crawler s))).*1)), <- (assoc (++)).
    + cbn [crawler]. destruct (is_redirect response) eqn:Hredirect.
      * left. split; [by apply Hredirected|].
        intros (response' & Hget & Hpage). congruence.
      * right. destruct (Hcompleted eq_refl) as [Hv Hs].
        exists response, (page_stat (crawler s) response).
        split_and!; [congruence | done | done | by apply page_stat_record |].
        rewrite Hs, <- (page_links_root_domain c0 (crawler s)).
        -- apply union_subseteq_r.
        -- by destruct Hconfig as (_ & _ & _ & _ & ?).
  - rewrite (mark_done_ok c0 s i _ Hinv Hj Hi (or_introl eq_refl)).
    apply (report_inv_same c0 s); [done | done | | done].
    pose proof (pending_swap
                  (set_q (mkQueue (items (q (crawler s))) (puts (q (crawler s)))
                                  (S (dones (q (crawler s))))) (crawler s))
                  (workers s) i _ Waiting false Hi) as Hperm.
    simpl in Hperm. fold (pending s) in Hperm. intros u. by rewrite Hperm.
  - apply (report_inv_same c0 s); [done | done | | done].
    unfold unfinished_tasks, fetching_count in *.
    assert (items (q (crawler s)) = []) as Hempty by (apply nil_length_inv; lia).
    intros u. unfold pending. cbn [crawler workers].
    rewrite Hempty, held_cancel, held_none by lia. done.
Qed.

Lemma report_inv_run (c0 : Crawler) (sched : list action) (s s' : Crawl) :
  crawl_inv c0 s → report_inv c0 s → run sched s = Some s' → report_inv c0 s'.
Proof.
  revert s. induction sched as [|a sched IH]; intros s Hinv Hreport Hrun;
    simpl in Hrun.
  - by injection Hrun as <-.
  - destruct (do_action a s) as [s1|] eqn:Hstep; [|done].
    apply (IH s1); [by eapply crawl_inv_step | by eapply report_inv_step | done].
Qed.

Lemma report_inv_crawl (root : string) (M tasks : Z)
    (session : string → option Response) :
  report_inv (init root M tasks session) (crawl (init root M tasks session)).
Proof.
  destruct (init_state root M tasks session)
    as (Hseen & Hitems & Hputs & Hdones & Hvisited & Hroot & Htasks).
  set (c0 := init root M tasks session) in *.
  assert (pending (crawl c0) = [root]) as Hpending.
  { unfold pending, crawl. cbn [crawler workers].
    by rewrite Hitems, held_replicate_waiting. }
  assert (∀ u, ¬ handled (crawl c0) u) as Hnone.
  { intros u [Hin Hout]. rewrite Hpending in Hout. cbn [crawl crawler] in Hin.
    rewrite Hseen in Hin. apply elem_of_singleton in Hin as ->.
    apply Hout. by left. }
  exists []. cbn [crawl crawler]. rewrite Hvisited. split_and!.
  - apply NoDup_nil_2.
  - constructor.
  - intros u. split; [by intros []%elem_of_nil|]. intros [Hu _]. by destruct (Hnone u).
  - intros u response Hu. by destruct (Hnone u).
Qed.

(** ** What the crawl sees *)

Lemma reachable_step (c0 : Crawler) (a : action) (s s' : Crawl) :
  crawl_inv c0 s →
  (∀ u, u ∈ seen_urls (crawler s) → reachable c0 u) →
  do_action a s = Some s' →
  ∀ u, u ∈ seen_urls (crawler s') → reachable c0 u.
Proof.
  intros Hinv Hreach Hstep.
  pose proof Hinv as (Hconfig & _ & _ & _ & _ & Hpending & _).
  assert (∀ i, seen_urls (crawler (mark_done i (crawler s) (workers s)))
               = seen_urls (crawler s)) as Hdone.
  { intros i. unfold mark_done. by destruct (task_done _). }
  apply do_action_cases in Hstep
    as [Hj [(i & url & budget & rest & w & Hi & Hq & Hw & ->)
           | [(i & url & budget & Hi & Hsession & ->)
             | [(i & url & budget & response & w & Hi & Hsession & Hw & ->)
               | [(i & Hi & ->) | [Hzero ->]]]]]].
  - done.
  - by rewrite Hdone.
  - destruct (fetch_response_admitted (crawler s) response url budget)
      as (new & Hadmitted & _ & Hfrom & _).
    destruct Hadmitted as (_ & _ & _ & _ & _ & Hseen' & _).
    destruct Hconfig as (_ & _ & _ & Hsame & Hdomain).
    rewrite Hsame in Hsession.
    assert (reachable c0 url) as Hurl.
    { apply Hreach, Hpending. unfold pending. apply elem_of_app. right.
      by eapply held_lookup. }
    cbn [crawler]. intros u. rewrite Hseen'.
    intros [Hu|Hu%elem_of_list_to_set]%elem_of_union; [by apply Hreach|].
    destruct (Hfrom u Hu) as [(Hr & location & Hloc & ->) | [Hr Hin]].
    + by eapply reachable_redirect.
    + eapply reachable_link; [done..|].
      by rewrite <- (page_links_root_domain c0 (crawler s)).
  - by rewrite Hdone.
  - done.
Qed.

Lemma reachable_run (c0 : Crawler) (sched : list action) (s s' : Crawl) :
  crawl_inv c0 s →
  (∀ u, u ∈ seen_urls (crawler s) → reachable c0 u) →
  run sched s = Some s' →
  ∀ u, u ∈ seen_urls (crawler s') → reachable c0 u.
Proof.
  revert s. induction sched as [|a sched IH]; intros s Hinv Hreach Hrun;
    simpl in Hrun.
  - by injection Hrun as <-.
  - destruct (do_action a s) as [s1|] eqn:Hstep; [|done].
    apply (IH s1); [by eapply crawl_inv_step | by eapply reachable_step | done].
Qed.

Lemma cancelled_hold_nothing (ws : list Worker) :
  Forall (λ w, w = Cancelled) ws → mjoin (held_url <$> ws) = [].
Proof. induction 1 as [|w ws -> _ IH]; [done | exact IH]. Qed.

Lemma joined_nothing_pending (c0 : Crawler) (s : Crawl) :
  crawl_inv c0 s → joined s = true → pending s = [].
Proof.
  intros (_ & _ & _ & _ & Hjoined & _) Hj.
  destruct (Hjoined Hj) as [[_ Hempty] Hall].
  unfold pending. by rewrite Hempty, cancelled_hold_nothing.
Qed.

(** ** The pool on any site: what every crawl keeps *)

(** X8: in every state the pool reaches, on any site and under any
    schedule, no URL is queued or held by a worker twice, [put_nowait] was
    called exactly once for each URL of the seen set, and the records in
    [visited] together with the URLs still queued or held are at most as
    many as the seen URLs. *)
Theorem pool_admits_each_url_once (root : string) (M tasks : Z)
    (session : string → option Response) (sched : list action) (s : Crawl) :
  run sched (crawl (init root M tasks session)) = Some s →
  NoDup (pending s)
  ∧ puts (q (crawler s)) = size (seen_urls (crawler s))
  ∧ (length (visited (crawler s)) + length (pending s)
     ≤ size (seen_urls (crawler s)))%nat.
Proof.
  intros Hrun.
  pose proof (crawl_inv_run _ _ _ _ (crawl_inv_crawl root M tasks session) Hrun)
    as (_ & _ & _ & _ & _ & _ & Hnodup & Hputs & Hvisited & _).
  done.
Qed.



(** X11: when [q.join()] has returned, the frontier is drained, no URL
    is queued or held, every worker has been cancelled (none has died),
    and no further action of the pool is possible. *)
Theorem join_returns_on_drained_frontier (root : string) (M tasks : Z)
    (session : string → option Response) (sched : list action) (s : Crawl) :
  run sched (crawl (init root M tasks session)) = Some s →
  joined s = true →
  drained (crawler s)
  ∧ pending s = []
  ∧ Forall (λ w, w = Cancelled) (workers s)
  ∧ (∀ a, do_action a s = None).
Proof.
  intros Hrun Hj.
  pose proof (crawl_inv_run _ _ _ _ (crawl_inv_crawl root M tasks session) Hrun)
    as Hinv.
  pose proof Hinv as (_ & _ & _ & _ & Hjoined & _).
  destruct (Hjoined Hj) as [Hdrained Hall].
  split_and!; [done | by eapply joined_nothing_pending | done |].
  intros a. unfold do_action. by rewrite Hj.
Qed.


(** X13: with [max_tasks] 0 or less, [crawl] (crawler.py:235) creates
    no worker; the root stays queued and unfinished, no action of the
    pool is enabled, and [q.join()] never returns. *)
Theorem no_workers_no_crawl (root : string) (M tasks : Z)
    (session : string → option Response) :
  tasks ≤ 0 →
  let s0 := crawl (init root M tasks session) in
  workers s0 = []
  ∧ unfinished_tasks (q (crawler s0)) = 1%nat
  ∧ (∀ a, do_action a s0 = None)
  ∧ (∀ sched s, run sched s0 = Some s → sched = [] ∧ joined s = false).
Proof.
  intros Htasks s0.
  destruct (init_state root M tasks session)
    as (_ & _ & Hputs & Hdones & _ & _ & Hmax).
  assert (workers s0 = []) as Hnone.
  { unfold s0, crawl. cbn [workers]. rewrite Hmax.
    by replace (Z.to_nat tasks) with 0%nat by lia. }
  assert (unfinished_tasks (q (crawler s0)) = 1%nat) as Hone.
  { unfold s0, crawl, unfinished_tasks. cbn [crawler]. by rewrite Hputs, Hdones. }
  assert (∀ a, do_action a s0 = None) as Hstuck.
  { intros a. unfold do_action. rewrite Hnone, Hone.
    destruct a; by cbn. }
  split_and!; [done..|].
  intros [|a sched] s Hrun; simpl in Hrun.
  - by injection Hrun as <-.
  - by rewrite Hstuck in Hrun.
Qed.

(** X14: on a site all of whose URLs that the crawl can come to see
    lie in a finite set [U] (the root, the links of every page of [U] and
    the target of every redirect of [U]), every schedule of the pool is
    at most 3 * |U| + 1 actions long, the seen set stays within [U], and
    [visited] has at most |U| records. *)
Theorem crawl_stops_on_finite_site (root : string) (M tasks : Z)
    (session : string → option Response) (U : gset string)
    (sched : list action) (s : Crawl) :
  site_within (init root M tasks session) U →
  run sched (crawl (init root M tasks session)) = Some s →
  (length sched ≤ 3 * size U + 1)%nat
  ∧ seen_urls (crawler s) ⊆ U
  ∧ (length (visited (crawler s)) ≤ size U)%nat.
Proof.
  intros Hsite Hrun.
  assert (root ∈ U) as Hroot by by destruct Hsite as [? _].
  destruct (crawl_measure_crawl root M tasks session U Hroot) as [Hin0 Hmeasure].
  destruct (crawl_measure_run _ U _ _ _ (crawl_inv_crawl root M tasks session)
              Hsite Hin0 Hrun) as [Hin Hle].
  pose proof (crawl_inv_run _ _ _ _ (crawl_inv_crawl root M tasks session) Hrun)
    as (_ & _ & _ & _ & _ & _ & _ & _ & Hvisited & _).
  pose proof (subseteq_size _ _ Hin) as Hsize.
  split_and!; [lia | done | lia].
Qed.


(** X16: in every state the pool reaches, [visited] holds, in the
    order of handling, exactly one record for each URL that a worker is
    done with and that answered with a response that is no redirect: the
    record has the URL and status of that response and its number of
    links.  The report of main.py has one line for each of them, and
    once [q.join()] has returned these URLs are all the seen URLs that
    answer with such a response. *)
Theorem crawl_records_every_handled_page (root : string) (M tasks : Z)
    (session : string → option Response) (sched : list action) (s : Crawl) :
  let c0 := init root M tasks session in
  run sched (crawl c0) = Some s →
  ∃ crawled,
    NoDup crawled
    ∧ Forall2 (record_of c0) (visited (crawler s)) crawled
    ∧ (∀ url, url ∈ crawled ↔ handled s url ∧ answers_page c0 url)
    ∧ length (report_lines (visited (crawler s))) = length crawled
    ∧ (joined s = true →
       ∀ url, url ∈ crawled ↔ url ∈ seen_urls (crawler s) ∧ answers_page c0 url).
Proof.
  intros c0 Hrun.
  pose proof (crawl_inv_run _ _ _ _ (crawl_inv_crawl root M tasks session) Hrun)
    as Hinv.
  destruct (report_inv_run _ _ _ _ (crawl_inv_crawl root M tasks session)
              (report_inv_crawl root M tasks session) Hrun)
    as (crawled & Hnd & Hrec & Hiff & _).
  exists crawled. split_and!; [done..| |].
  - unfold report_lines. rewrite length_imap.
    destruct (sort_by_url_spec (visited (crawler s))) as [Hperm _].
    rewrite Hperm. by eapply Forall2_length.
  - intros Hj url. rewrite Hiff. unfold handled.
    rewrite (joined_nothing_pending _ _ Hinv Hj).
    split; [by intros [[? _] ?] | intros [? ?]; split_and!; [done | | done]].
    by intros []%elem_of_nil.
Qed.

(** X17: in every state the pool reaches, every seen URL is reachable
    from the root through links of pages and targets of redirects, and
    the links of every page a worker is done with are seen.  Once
    [q.join()] has returned, every URL that the pages link to from the
    root, link by link, is seen; on a site without redirects the seen set
    is exactly this set, whatever the schedule and the number of
    workers. *)
Theorem crawl_sees_what_pages_link_to (root : string) (M tasks : Z)
    (site : string → option Response) (sched : list action) (s : Crawl) :
  let c0 := init root M tasks site in
  run sched (crawl c0) = Some s →
  (∀ url, url ∈ seen_urls (crawler s) → reachable c0 url)
  ∧ (∀ url response,
       handled s url → session c0 url = Some response →
       is_redirect response = false →
       page_links c0 response ⊆ seen_urls (crawler s))
  ∧ (joined s = true → ∀ url, linked c0 url → url ∈ seen_urls (crawler s))
  ∧ ((∀ url response, session c0 url = Some response →
                      is_redirect response = false) →
     joined s = true →
     ∀ url, url ∈ seen_urls (crawler s) ↔ linked c0 url).
Proof.
  intros c0 Hrun.
  pose proof (crawl_inv_run _ _ _ _ (crawl_inv_crawl root M tasks site) Hrun)
    as Hinv.
  destruct (report_inv_run _ _ _ _ (crawl_inv_crawl root M tasks site)
              (report_inv_crawl root M tasks site) Hrun)
    as (crawled & _ & _ & _ & Hclosed).
  destruct (init_state root M tasks site) as (Hseen & _ & _ & _ & _ & Hroot & _).
  fold c0 in Hseen, Hroot.
  assert (∀ url, url ∈ seen_urls (crawler s) → reachable c0 url) as Hsound.
  { apply (reachable_run c0 sched (crawl c0)); [apply crawl_inv_crawl | | done].
    intros u. cbn [crawl crawler]. rewrite Hseen.
    intros ->%elem_of_singleton. rewrite <- Hroot. constructor. }
  assert (joined s = true → ∀ url, linked c0 url → url ∈ seen_urls (crawler s))
    as Hcomplete.
  { intros Hj url Hlinked.
    induction Hlinked as [|url response link _ IH Hget Hredirect Hlink].
    - apply (seen_urls_run _ _ _ Hrun). cbn [crawl crawler].
      rewrite Hseen, Hroot. by apply elem_of_singleton.
    - apply (Hclosed url response); [|done..]. split; [done|].
      rewrite (joined_nothing_pending _ _ Hinv Hj). by intros []%elem_of_nil. }
  split_and!; [done..|].
  intros Hpages Hj url. split; [|by apply Hcomplete].
  assert (∀ u, reachable c0 u → linked c0 u) as Hsame.
  { intros u Hu.
    induction Hu as [|u response link _ IH Hget Hredirect Hlink
                     |u response location _ _ Hget Hredirect _].
    - constructor.
    - by eapply linked_page.
    - by rewrite (Hpages u response Hget) in Hredirect. }
  intros Hin. by apply Hsame, Hsound.
Qed.

End Properties.

(** * The model on concrete sites *)

Section Examples.

#[local] Existing Instance CPython.library.

Import Fixture.

Example normalize_parent_link :
  normalize_url "../b" (html_page "http://example.com/a/" "") = "http://example.com/b".
Proof. vm_compute. reflexivity. Qed.

Example extract_domain_home : extract_domain "http://Example.COM:8080/x" = "example.com".
Proof. vm_compute. reflexivity. Qed.

Example three_pages_links :
  page_links (init home 10 1 three_pages)
             (default (plain_page "" "") (three_pages home))
  = {["http://example.com/a.html"; "http://example.com/b/"]}.
Proof. vm_compute. reflexivity. Qed.

Example three_pages_one_worker :
  (λ s, (length (visited (crawler s)), puts (q (crawler s)), dones (q (crawler s)),
         items (q (crawler s)), joined s))
    <$> run (sequential 3 ++ [Join]) (crawl (init home 10 1 three_pages))
  = Some (3%nat, 3%nat, 3%nat, [], true).
Proof. vm_compute. reflexivity. Qed.

Example two_hops_budget_one :
  (λ s, (visited (crawler s), size (seen_urls (crawler s)),
         bool_decide ("http://example.com/r2" ∈ seen_urls (crawler s)), joined s))
    <$> run (sequential 2 ++ [Join]) (crawl (init home 1 10 two_hops))
  = Some ([], 2%nat, false, true).
Proof. vm_compute. reflexivity. Qed.

Example lost_location_stalls_the_crawl :
  (λ s, (workers s, unfinished_tasks (q (crawler s)), items (q (crawler s))))
    <$> run [Get 0; Fetch 0]
            (crawl (init "http://example.com/lost" 10 1 loops))
  = Some ([Failed (KeyError "location")], 1%nat, []).
Proof. vm_compute. reflexivity. Qed.

(** C1: what the code does when a URL is admitted twice.  The root,
    admitted by the constructor, is admitted again with another budget:
    the seen set is unchanged, but the root is queued a second time and
    two tasks are unfinished. *)
Theorem add_url_again_enqueues_again :
  let c := init home 10 10 three_pages in
  home ∈ seen_urls c
  ∧ items (q c) = [(home, 10)]
  ∧ seen_urls (add_url c home (Some 3)) = seen_urls c
  ∧ items (q (add_url c home (Some 3))) = [(home, 10); (home, 3)]
  ∧ unfinished_tasks (q (add_url c home (Some 3))) = 2%nat.
Proof.
  cbv zeta. split_and!; vm_compute; reflexivity.
Qed.

(** C5: what the code does with a Location that carries a fragment.
    [fetch] admits the target as [urljoin] returns it, fragment
    included; the fragment-free URL, which [normalize_url] gives for the
    same reference, is not admitted. *)
Theorem redirect_target_keeps_fragment :
  let c := init home 10 10 to_fragment in
  let response := redirect 301 home "/b#frag" in
  to_fragment home = Some response
  ∧ items (q (state_of (fetch c home 10)))
    = [(home, 10); ("http://example.com/b#frag", 9)]
  ∧ "http://example.com/b#frag" ∈ seen_urls (state_of (fetch c home 10))
  ∧ ("http://example.com/b" ∉ seen_urls (state_of (fetch c home 10)))
  ∧ normalize_url "/b#frag" response = "http://example.com/b".
Proof.
  cbv zeta. split_and!.
  - vm_compute. reflexivity.
  - vm_compute. reflexivity.
  - vm_compute. reflexivity.
  - apply (bool_decide_unpack _). vm_compute. exact I.
  - vm_compute. reflexivity.
Qed.

Lemma three_page_crawl_terminates_witness :
  let s0 := crawl (init home 10 10 three_pages) in
  (∀ sched s, run sched s0 = Some s → (length sched ≤ 10)%nat)
  ∧ (∀ sched s, run sched s0 = Some s → joined s = false →
       ∃ act s', do_action act s = Some s')
  ∧ (∀ sched s, run sched s0 = Some s → joined s = true →
       drained (crawler s) ∧ length (visited (crawler s)) = 3%nat)
  ∧ (∃ sched s, run sched s0 = Some s ∧ joined s = true).
Proof.
  apply (three_page_crawl_terminates home "http://example.com/a.html"
           "http://example.com/b/" 10 10 three_pages).
  - by right.
  - split_and!; [done..| | |].
    + exists (default (plain_page "" "") (three_pages home)).
      split_and!; vm_compute; reflexivity.
    + exists (html_page "http://example.com/a.html" "<p>a</p>").
      split_and!; vm_compute; reflexivity.
    + exists (html_page "http://example.com/b/" "<p>b</p>").
      split_and!; vm_compute; reflexivity.
Defined.

Lemma redirect_chain_within_budget_witness :
  ∃ s stat,
    run (sequential 3) (crawl (init home 2 10 two_hops)) = Some s
    ∧ visited (crawler s) = [stat]
    ∧ fs_url stat = "http://example.com/r2" ∧ fs_status stat = 200.
Proof.
  destruct (redirect_chain_within_budget home
              ["http://example.com/r1"; "http://example.com/r2"]
              (html_page "http://example.com/r2" "<p>done</p>") 2 10 two_hops)
    as (_ & Hcomplete & _).
  - lia.
  - lia.
  - apply (bool_decide_unpack _). vm_compute. exact I.
  - split; [|split].
    + exists (redirect 301 home "/r1"), "/r1". split_and!; vm_compute; reflexivity.
    + exists (redirect 302 "http://example.com/r1" "http://example.com/r2"),
        "http://example.com/r2".
      split_and!; vm_compute; reflexivity.
    + split; vm_compute; reflexivity.
  - destruct Hcomplete as (s & stat & Hrun & Hvisited & Hurl & Hstatus & _).
    + simpl. lia.
    + exists s, stat. split_and!; [exact Hrun | exact Hvisited | exact Hurl | exact Hstatus].
Defined.

Lemma host_okay_scope_policy_witness :
  let c := init home 10 10 three_pages in
  host_okay c "example.com" = true
  ∧ host_okay c "www.example.com" = true
  ∧ host_okay c "sub.example.com" = false
  ∧ host_okay c "192.168.0.1" = false.
Proof.
  apply (host_okay_scope_policy (init home 10 10 three_pages)).
  vm_compute. reflexivity.
Defined.

Lemma seen_redirect_target_dropped_witness :
  let c := init home 10 10 loops in
  let response := redirect 302 home "/" in
  process_redirect c response home 10 = Returned c
  ∧ fetch_response c response home 10 = Returned c.
Proof.
  apply (seen_redirect_target_dropped _ _ _ "/"); vm_compute; reflexivity.
Defined.

Lemma other_responses_recorded_without_links_witness :
  let c := init home 10 10 loops in
  let response := plain_page "http://example.com/notes.txt" "see <a href=/x>" in
  ∃ stat,
    fetch_response c response "http://example.com/notes.txt" 10
    = Returned (record_statistic c stat)
    ∧ visited (record_statistic c stat) = visited c ++ [stat]
    ∧ sitemap (record_statistic c stat) = sitemap c
    ∧ fs_num_urls stat = 0
    ∧ fs_num_new_urls stat = 0.
Proof.
  apply other_responses_recorded_without_links.
  - vm_compute. reflexivity.
  - right. apply (bool_decide_unpack _). vm_compute. exact I.
Defined.

Lemma frontier_urls_are_seen_witness :
  let c := init home 10 10 three_pages in
  frontier_in_seen c
  ∧ frontier_in_seen (add_url c "http://example.com/a.html" (Some 3))
  ∧ frontier_in_seen
      (state_of (fetch_response c (redirect 301 home "/moved") home 10)).
Proof.
  destruct (frontier_urls_are_seen home 10 10 three_pages)
    as (Hinit & Hadd & Hfetch & _).
  split_and!; [exact Hinit | apply Hadd, Hinit | apply Hfetch, Hinit].
Defined.

Lemma redirect_without_location_raises_witness :
  let c := init home 10 10 loops in
  fetch c "http://example.com/lost" 10 = Raised (KeyError "location") c.
Proof.
  apply (redirect_without_location_raises _ "http://example.com/lost" 10
           (redirect_without_location "http://example.com/lost"));
    vm_compute; reflexivity.
Defined.

Lemma non_http_links_not_admitted_witness :
  let c := init home 10 10 three_pages in
  url_allowed c "mailto:me@example.com" = false
  ∧ "mailto:me@example.com"
    ∉ page_links c (default (plain_page "" "") (three_pages home)).
Proof.
  destruct (non_http_links_not_admitted (init home 10 10 three_pages)
              "mailto:me@example.com") as (Hrefused & Hlinks & _).
  - apply (bool_decide_unpack _). vm_compute. exact I.
  - split; [exact Hrefused | apply Hlinks].
Defined.

(** ** The root that main.py builds, on the model of urllib.parse *)

Lemma http_target_scheme (target : string) :
  scheme (urlparse ("http://" +:+ target)) = "http".
Proof.
  assert (∀ t, PyStr.lstrip_with CPython.c0_control_or_space ("http://" +:+ t)
               = "http://" +:+ t) as H1 by reflexivity.
  assert (∀ t, CPython.remove_unsafe ("http://" +:+ t)
               = "http://" +:+ CPython.remove_unsafe t) as H2 by reflexivity.
  cbn [urlparse CPython.library]. unfold CPython.urlparse, CPython.urlparse6.
  assert (CPython.s_scheme (CPython.urlsplit ("http://" +:+ target) "") = "http")
    as Hs.
  { unfold CPython.urlsplit. rewrite H1, H2.
    generalize (CPython.remove_unsafe target). intros t.
    match goal with
    | |- context [match ?X with (_, _) => _ end] =>
        assert (X = ("http", "//" +:+ t)) as -> by reflexivity
    end.
    repeat match goal with
           | |- context [match ?X with (_, _) => _ end] => destruct X as [? ?]
           end.
    reflexivity. }
  match goal with
  | |- context [match ?X with (_, _) => _ end] => destruct X as [? ?]
  end.
  exact Hs.
Qed.

(** X18: main.py:38-40 hands [Crawler] a root that always contains
    ://, and leaves a root it has built unchanged.  A target that
    contains :// is handed over as it is; any other target gets the
    prefix http://, and then, by urllib.parse as modelled in [CPython],
    its scheme is http, it passes the crawler's own [url_allowed], and it
    is the one URL in the frontier and in the seen set. *)
Theorem bare_target_is_crawled_over_http (target : string) (M tasks : Z)
    (site : string → option Response) :
  let url := target_url target in
  let c := init url M tasks site in
  target_url url = url
  ∧ PyStr.contains_sub "://" url = true
  ∧ (PyStr.contains_sub "://" target = true → url = target)
  ∧ (PyStr.contains_sub "://" target = false →
     url = "http://" +:+ target
     ∧ scheme (urlparse url) = "http"
     ∧ url_allowed c url = true
     ∧ items (q c) = [(url, M)]
     ∧ seen_urls c = {[url]}).
Proof.
  intros url c.
  assert (∀ t, PyStr.contains_sub "://" ("http://" +:+ t) = true) as Hprefixed
    by reflexivity.
  destruct (PyStr.contains_sub "://" target) eqn:Hbare.
  - assert (url = target) as Hurl.
    { unfold url, target_url. by rewrite Hbare. }
    split_and!; [|by rewrite Hurl|done|done].
    rewrite Hurl. unfold target_url. by rewrite Hbare.
  - assert (url = "http://" +:+ target) as Hurl.
    { unfold url, target_url. by rewrite Hbare. }
    split_and!; [|by rewrite Hurl|done|].
    + rewrite Hurl. unfold target_url. by rewrite Hprefixed.
    + intros _.
      destruct (init_state url M tasks site) as (Hseen & Hitems & _).
      split_and!; [done| | |done|done].
      * rewrite Hurl. apply http_target_scheme.
      * apply root_url_allowed. rewrite Hurl, http_target_scheme.
        apply elem_of_cons. by left.
Qed.

(** ** The properties on the sites of [Fixture] *)

Lemma three_pages_within :
  site_within (init home 10 1 three_pages)
    {[home; "http://example.com/a.html"; "http://example.com/b/"]}.
Proof.
  split.
  - apply (bool_decide_unpack _). vm_compute. exact I.
  - intros url response Hin Hget.
    apply elem_of_union in Hin as [[Hin|Hin]%elem_of_union|Hin];
      apply elem_of_singleton in Hin; subst url;
      vm_compute in Hget; injection Hget as <-;
      (split; intros Hr;
       [ by vm_compute in Hr
       | apply (bool_decide_unpack _); vm_compute; exact I ]).
Qed.


Lemma three_pages_crawled :
  is_Some (run (sequential 3 ++ [Join]) (crawl (init home 10 1 three_pages))).
Proof. apply (bool_decide_unpack _). vm_compute. exact I. Qed.

Lemma parsed_page_enters_sitemap_witness :
  let c := init home 10 1 three_pages in
  let response := html_page home (anchor "a.html") in
  ∃ entry,
    sitemap (state_of (fetch_response c response home 10)) !! home = Some entry
    ∧ "http://example.com/a.html" ∈ links entry.
Proof.
  destruct (parsed_page_enters_sitemap (init home 10 1 three_pages)
              (html_page home (anchor "a.html")) home 10)
    as (entry & Hentry & _ & Hlinks & _).
  - vm_compute. reflexivity.
  - apply (bool_decide_unpack _). vm_compute. exact I.
  - exists entry. split; [exact Hentry|]. apply Hlinks. exists "a.html". split.
    + apply (bool_decide_unpack _). vm_compute. exact I.
    + vm_compute. reflexivity.
Defined.

Lemma completed_fetch_queues_new_links_witness :
  let c := init home 10 1 three_pages in
  let response := html_page home (anchor "a.html") in
  let c' := state_of (fetch_response c response home 10) in
  ∃ new stat,
    items (q c') = items (q c) ++ new
    ∧ visited c' = visited c ++ [stat]
    ∧ seen_urls c' = seen_urls c ∪ page_links c response
    ∧ fs_num_new_urls stat = Z.of_nat (length new).
Proof.
  destruct (completed_fetch_queues_new_links (init home 10 1 three_pages)
              (html_page home (anchor "a.html")) home 10)
    as (new & stat & Hitems & Hvisited & Hseen & _ & _ & Hnew & _).
  - vm_compute. reflexivity.
  - exists new, stat.
    split_and!; [exact Hitems | exact Hvisited | exact Hseen | exact Hnew].
Defined.

Lemma www_hosts_mutually_in_scope_witness :
  host_okay (init home 10 1 three_pages) "www.example.com" = true
  ∧ host_okay (init "http://www.example.com/" 10 1 three_pages) "example.com" = true.
Proof.
  split.
  - apply (www_hosts_mutually_in_scope (init home 10 1 three_pages) "example.com");
      vm_compute; reflexivity.
  - apply (www_hosts_mutually_in_scope
             (init "http://www.example.com/" 10 1 three_pages) "example.com");
      vm_compute; reflexivity.
Defined.

Lemma pool_admits_each_url_once_witness :
  ∃ s, run (sequential 3 ++ [Join]) (crawl (init home 10 1 three_pages)) = Some s
       ∧ NoDup (pending s)
       ∧ puts (q (crawler s)) = size (seen_urls (crawler s)).
Proof.
  destruct three_pages_crawled as [s Hrun].
  destruct (pool_admits_each_url_once _ _ _ _ _ _ Hrun) as (Hnodup & Hputs & _).
  exists s. split_and!; [exact Hrun | exact Hnodup | exact Hputs].
Defined.



Lemma join_returns_on_drained_frontier_witness :
  ∃ s, run (sequential 3 ++ [Join]) (crawl (init home 10 1 three_pages)) = Some s
       ∧ drained (crawler s) ∧ pending s = [].
Proof.
  destruct three_pages_crawled as [s Hrun].
  assert (joined s = true) as Hj.
  { assert (joined <$> run (sequential 3 ++ [Join])
                           (crawl (init home 10 1 three_pages)) = Some true) as H
      by (vm_compute; reflexivity).
    rewrite Hrun in H. by injection H. }
  destruct (join_returns_on_drained_frontier _ _ _ _ _ _ Hrun Hj)
    as (Hdrained & Hpending & _).
  exists s. split_and!; [exact Hrun | exact Hdrained | exact Hpending].
Defined.


Lemma no_workers_no_crawl_witness :
  let s0 := crawl (init home 10 0 three_pages) in
  workers s0 = []
  ∧ unfinished_tasks (q (crawler s0)) = 1%nat
  ∧ do_action Join s0 = None
  ∧ do_action (Get 0) s0 = None.
Proof.
  destruct (no_workers_no_crawl home 10 0 three_pages) as (Hnone & Hone & Hstuck & _).
  - lia.
  - split_and!; [exact Hnone | exact Hone | apply Hstuck | apply Hstuck].
Defined.

Lemma crawl_stops_on_finite_site_witness :
  ∃ s, run (sequential 3 ++ [Join]) (crawl (init home 10 1 three_pages)) = Some s
       ∧ seen_urls (crawler s)
         ⊆ {[home; "http://example.com/a.html"; "http://example.com/b/"]}
       ∧ (length (visited (crawler s)) ≤ 3)%nat.
Proof.
  destruct three_pages_crawled as [s Hrun].
  destruct (crawl_stops_on_finite_site _ _ _ _ _ _ _ three_pages_within Hrun)
    as (_ & Hseen & Hvisited).
  exists s. split_and!; [exact Hrun | exact Hseen | exact Hvisited].
Defined.


Lemma crawl_records_every_handled_page_witness :
  ∃ s crawled,
    run (sequential 3 ++ [Join]) (crawl (init home 10 1 three_pages)) = Some s
    ∧ NoDup crawled
    ∧ Forall2 (record_of (init home 10 1 three_pages)) (visited (crawler s)) crawled
    ∧ length (report_lines (visited (crawler s))) = length crawled.
Proof.
  destruct three_pages_crawled as [s Hrun].
  destruct (crawl_records_every_handled_page _ _ _ _ _ _ Hrun)
    as (crawled & Hnodup & Hrecords & _ & Hlines & _).
  exists s, crawled.
  split_and!; [exact Hrun | exact Hnodup | exact Hrecords | exact Hlines].
Defined.

Lemma crawl_sees_what_pages_link_to_witness :
  ∃ s, run (sequential 3 ++ [Join]) (crawl (init home 10 1 three_pages)) = Some s
       ∧ ∀ url, url ∈ seen_urls (crawler s) →
                reachable (init home 10 1 three_pages) url.
Proof.
  destruct three_pages_crawled as [s Hrun].
  destruct (crawl_sees_what_pages_link_to _ _ _ _ _ _ Hrun) as (Hreach & _).
  exists s. split; [exact Hrun | exact Hreach].
Defined.

Lemma bare_target_is_crawled_over_http_witness :
  target_url "example.com" = "http://example.com"
  ∧ url_allowed (init (target_url "example.com") 10 10 three_pages)
                (target_url "example.com") = true.
Proof.
  destruct (bare_target_is_crawled_over_http "example.com" 10 10 three_pages)
    as (_ & _ & _ & Hbare).
  destruct Hbare as (Hurl & _ & Hallowed & _).
  - vm_compute. reflexivity.
  - split; [exact Hurl | exact Hallowed].
Defined.

End Examples.
